(** * Multi-device live preview of the Celebrations plugin (devicePreview.js)

    A shallow embedding of the preview subsystem of the admin page:
    the asset collector ([collectThemeAssets]), the cross-document
    injector ([cleanOldAssets], [injectCSSFiles], [injectJSFilesAsync]),
    the loading overlay, the device layout ([positionIframe],
    [switchToDevice]), the refresh coordinator ([updatePreview]) and the
    start of the preview ([initDevicePreviewSwitcher], the device radios).
    Around it, the parts of the admin page that decide what is shown and
    saved: the summary and the order of the configured themes
    ([getActiveElementsInfo], [sortThemes]), the select of the themes
    left to configure ([refreshThemeSelect], [areAllThemesConfigured])
    and the payloads of [submitThemeForm] and [updateTheme].

    JavaScript numbers are IEEE binary64 values, modelled by Rocq's
    primitive floats.  Objects used as dictionaries whose iteration order
    matters (theme elements, extra options, DEVICE_CONFIG) are association
    lists in the order [Object.entries] yields them; objects only read and
    written by key ([jsOptions], [window], the elements found by id) are
    finite maps.

    The event loop is single-threaded: a callback runs to its end before
    the next one starts.  The only interleaving the embedding needs is
    the order in which the script fetches complete, which is left free
    ([Injector.step]).  An [async] function is described by the state it
    leaves when its promise settles together with how the promise ends;
    a timer is taken at the call when nothing that runs before it fires
    reads or writes what its callback writes.  A call of [updatePreview]
    is taken alone: while it waits for the frame to load, no other
    handler assigns [iframe.onload] or reloads the frame (such an
    assignment would discard the resolver the call has put there, and
    its promise would never settle). *)

From Stdlib Require Import PrimFloat Ascii String.
From stdpp Require Import gmap strings list relations sorting.

Local Open Scope string_scope.
Local Open Scope list_scope.
Set Warnings "-register-all".

(** ** JavaScript values and settled promises *)

Inductive JSVal : Type :=
  | VUndefined
  | VBool (b : bool)
  | VNum (x : float)
  | VStr (s : string).

(** The state a promise ends in. *)
Inductive Settled (A : Type) : Type :=
  | Fulfilled (a : A)
  | Rejected (err : string).
Arguments Fulfilled {A} a.
Arguments Rejected {A} err.

(** The double-quote character, as a string. *)
Definition dquote : string := String "034"%char "".

(** Truthiness of an optional string property ([undefined] and [''] are
    falsy). *)
Definition truthy (o : option string) : bool :=
  match o with
  | Some s => negb (String.eqb s "")
  | None => false
  end.

(** ** The DOM of the isolated document *)

Module Dom.

(** An element: its identity, tag name, attributes (the dataset entry
    [theme] is the attribute [data-theme]), text content and children. *)
Inductive Node : Type :=
  mkNode (nid : nat) (tagName : string) (attrs : list (string * string))
         (textContent : string) (childNodes : list Node).

Definition nid (n : Node) : nat := let (i, _, _, _, _) := n in i.
Definition tagName (n : Node) : string := let (_, t, _, _, _) := n in t.
Definition attrs (n : Node) : list (string * string) := let (_, _, a, _, _) := n in a.
Definition textContent (n : Node) : string := let (_, _, _, x, _) := n in x.
Definition childNodes (n : Node) : list Node := let (_, _, _, _, k) := n in k.

Section NodeInduction.
Variable P : Node → Prop.
Hypothesis step :
  ∀ i t a x kids, Forall P kids → P (mkNode i t a x kids).

Fixpoint Node_forest_ind (n : Node) : P n :=
  match n with
  | mkNode i t a x kids =>
      step i t a x kids
        ((fix go (l : list Node) : Forall P l :=
            match l with
            | [] => List.Forall_nil P
            | k :: l' => List.Forall_cons P k l' (Node_forest_ind k) (go l')
            end) kids)
  end.
End NodeInduction.

Definition hasAttribute (k : string) (n : Node) : bool :=
  existsb (λ kv, String.eqb kv.1 k) (attrs n).

Definition getAttribute (k : string) (n : Node) : option string :=
  snd <$> find (λ kv, String.eqb kv.1 k) (attrs n).

Definition setAttribute (k v : string) (n : Node) : Node :=
  mkNode (nid n) (tagName n)
         (filter (λ kv, kv.1 ≠ k) (attrs n) ++ [(k, v)])
         (textContent n) (childNodes n).

Definition setTextContent (x : string) (n : Node) : Node :=
  mkNode (nid n) (tagName n) (attrs n) x [].

(** The element and its descendants, in document order. *)
Fixpoint subtree (n : Node) : list Node :=
  match n with
  | mkNode _ _ _ _ kids => n :: flat_map subtree kids
  end.

Definition forestNodes (f : list Node) : list Node := flat_map subtree f.

(** [el.remove()] for the element of identity [i] (identities are those
    of the DOM objects, one per element): it leaves the tree with its
    whole subtree. *)
Fixpoint removeFrom (i : nat) (n : Node) : Node :=
  match n with
  | mkNode j t a x kids =>
      mkNode j t a x
        (flat_map (λ k, if Nat.eqb (nid k) i then [] else [removeFrom i k]) kids)
  end.

Definition removeForest (i : nat) (f : list Node) : list Node :=
  flat_map (λ k, if Nat.eqb (nid k) i then [] else [removeFrom i k]) f.

Inductive ReadyState : Type := Loading | Interactive | Complete.

(** A loaded HTML document: the children of its [head] and of its [body],
    its [readyState], and the identity the next created element gets. *)
Record Document : Type := mkDocument {
  readyState : ReadyState;
  head : list Node;
  body : list Node;
  nextNid : nat
}.

Definition docNodes (d : Document) : list Node :=
  forestNodes (head d) ++ forestNodes (body d).

(** [doc.querySelectorAll(sel)]: the matching elements in document order. *)
Definition querySelectorAll (sel : Node → bool) (d : Document) : list Node :=
  filter (λ n, sel n = true) (docNodes d).

Definition remove (el : Node) (d : Document) : Document :=
  mkDocument (readyState d) (removeForest (nid el) (head d))
             (removeForest (nid el) (body d)) (nextNid d).

(** [doc.createElement(tag)] *)
Definition createElement (tag : string) (d : Document) : Node * Document :=
  (mkNode (nextNid d) tag [] "" [],
   mkDocument (readyState d) (head d) (body d) (S (nextNid d))).

Definition appendToHead (n : Node) (d : Document) : Document :=
  mkDocument (readyState d) (head d ++ [n]) (body d) (nextNid d).

Definition appendToBody (n : Node) (d : Document) : Document :=
  mkDocument (readyState d) (head d) (body d ++ [n]) (nextNid d).

(** The selector ['link[data-theme], script[data-theme]']. *)
Definition themeAssetSelector (n : Node) : bool :=
  (String.eqb (tagName n) "link" || String.eqb (tagName n) "script")
  && hasAttribute "data-theme" n.

(** [cleanOldAssets(doc)] *)
Definition cleanOldAssets (d : Document) : Document :=
  fold_left (λ doc el, remove el doc) (querySelectorAll themeAssetSelector d) d.

(** A loaded document with an empty head and an empty body. *)
Definition readyDocument : Document := mkDocument Complete [] [] 0.

(** Two nodes are the same element up to the content of their subtrees. *)
Definition sameElement (x y : Node) : Prop :=
  nid x = nid y ∧ tagName x = tagName y ∧ attrs x = attrs y.

End Dom.

(** ** AssetCollector: [collectThemeAssets] *)

Module Collector.

(** What [getById] finds: the properties of the element the collector
    reads.  An element that is not an input has no [type] and no [value]
    (empty strings here). *)
Record Input : Type := mkInput {
  itype : string;
  checked : bool;
  value : string
}.

Record ExtraOption : Type := mkExtraOption {
  eo_type : option string;
  eo_css : option string;
  eo_js : option string
}.

Record Element : Type := mkElement {
  setting : string;
  file : option string;
  etype : option string;
  extra_options : option (list (string * ExtraOption))
}.

Record ThemeData : Type := mkThemeData {
  elements : option (list (string * Element))
}.

Record Assets : Type := mkAssets {
  cssFiles : list string;
  jsFiles : list string;
  jsOptions : gmap string JSVal
}.

(** [API_ENDPOINTS.previewAsset] *)
Definition previewAsset : string :=
  "/cgi-bin/koha/plugins/run.pl?class=Koha::Plugin::Celebrations&method=preview_theme_asset".

Definition assetUrl (kind selectedTheme file : string) : string :=
  previewAsset +:+ "&type=" +:+ kind +:+ "&theme=" +:+ selectedTheme
    +:+ "&file=" +:+ file.

Definition pushCss (u : string) (a : Assets) : Assets :=
  mkAssets (cssFiles a ++ [u]) (jsFiles a) (jsOptions a).

Definition pushJs (u : string) (a : Assets) : Assets :=
  mkAssets (cssFiles a) (jsFiles a ++ [u]) (jsOptions a).

Definition setOption (k : string) (v : JSVal) (a : Assets) : Assets :=
  mkAssets (cssFiles a) (jsFiles a) (<[k := v]> (jsOptions a)).

(** [input?.type === 'checkbox' ? input.checked : true] *)
Definition isActive (input : option Input) : bool :=
  match input with
  | Some i => if String.eqb (itype i) "checkbox" then checked i else true
  | None => true
  end.

(** [extraInput?.type === 'checkbox' ? extraInput.checked : !!extraInput?.value] *)
Definition extraActive (extraInput : option Input) : bool :=
  match extraInput with
  | Some i =>
      if String.eqb (itype i) "checkbox" then checked i
      else truthy (Some (value i))
  | None => false
  end.

(** [element.type || "both"] *)
Definition assetType (e : Element) : string :=
  if truthy (etype e) then default "both" (etype e) else "both".

Section Collect.
(** The admin form, as [getById] sees it, and the global object. *)
Variable inputs : gmap string Input.
Variable window : gmap string JSVal.

Definition getById (id : string) : option Input := inputs !! id.

(** [window[k]] *)
Definition windowGet (k : string) : JSVal := default VUndefined (window !! k).

(** The body of the loop over [element.extra_options]. *)
Definition collectExtra (a : Assets) (entry : string * ExtraOption) : Assets :=
  let '(optKey, optValue) := entry in
  if bool_decide (eo_type optValue = Some "ignore") then
    setOption optKey (windowGet optKey) a
  else
    let extraInput := getById optKey in
    if extraActive extraInput then
      let a1 := if truthy (eo_css optValue)
                then pushCss (default "" (eo_css optValue)) a else a in
      let a2 := if truthy (eo_js optValue)
                then pushJs (default "" (eo_js optValue)) a1 else a1 in
      if truthy (value <$> extraInput)
      then setOption optKey (VStr (default "" (value <$> extraInput))) a2
      else a2
    else a.

(** The body of the loop over [themeData.elements]. *)
Definition collectElement (selectedTheme : string) (a : Assets)
    (entry : string * Element) : Assets :=
  let element := entry.2 in
  let input := getById (setting element) in
  if negb (isActive input) || negb (truthy (file element)) then a
  else
    let type := assetType element in
    let f := default "" (file element) in
    let a1 := if String.eqb type "css" || String.eqb type "both"
              then pushCss (assetUrl "css" selectedTheme f) a else a in
    let a2 := if String.eqb type "js" || String.eqb type "both"
              then pushJs (assetUrl "js" selectedTheme f) a1 else a1 in
    match extra_options element with
    | Some opts => fold_left collectExtra opts a2
    | None => a2
    end.

Definition collectThemeAssets (themeData : ThemeData) (selectedTheme : string)
    : Assets :=
  fold_left (collectElement selectedTheme)
            (default [] (elements themeData))
            (mkAssets [] [] ∅).

(** An active primary setting as the specification words it: the checked
    state of a checkbox, otherwise the presence of a non-empty value. *)
Definition spec_isActive (input : option Input) : bool :=
  match input with
  | Some i =>
      if String.eqb (itype i) "checkbox" then checked i
      else negb (String.eqb (value i) "")
  | None => false
  end.
End Collect.

(** When the loop body of [collectThemeAssets] goes past its guard. *)
Definition contributes (inputs : gmap string Input) (e : Element) : bool :=
  isActive (getById inputs (setting e)) && truthy (file e).

Definition isIgnore (o : ExtraOption) : bool :=
  bool_decide (eo_type o = Some "ignore").

(** The URLs an element brings by itself, by asset type. *)
Definition ownCss (selectedTheme : string) (e : Element) : list string :=
  if String.eqb (assetType e) "css" || String.eqb (assetType e) "both"
  then [assetUrl "css" selectedTheme (default "" (file e))] else [].

Definition ownJs (selectedTheme : string) (e : Element) : list string :=
  if String.eqb (assetType e) "js" || String.eqb (assetType e) "both"
  then [assetUrl "js" selectedTheme (default "" (file e))] else [].

(** The URLs its extra options bring. *)
Definition extraUrls (pick : ExtraOption → option string)
    (inputs : gmap string Input) (opts : list (string * ExtraOption)) : list string :=
  flat_map (λ entry : string * ExtraOption,
              if isIgnore entry.2 then []
              else if extraActive (getById inputs entry.1) && truthy (pick entry.2)
                   then [default "" (pick entry.2)] else [])
           opts.

Definition elementCss (inputs : gmap string Input) (selectedTheme : string)
    (e : Element) : list string :=
  if contributes inputs e
  then ownCss selectedTheme e ++ extraUrls eo_css inputs (default [] (extra_options e))
  else [].

Definition elementJs (inputs : gmap string Input) (selectedTheme : string)
    (e : Element) : list string :=
  if contributes inputs e
  then ownJs selectedTheme e ++ extraUrls eo_js inputs (default [] (extra_options e))
  else [].

(** The option [k] holds the value of the global [k]. *)
Definition holdsGlobal (window : gmap string JSVal) (k : string) (a : Assets)
    : Prop :=
  jsOptions a !! k = Some (windowGet window k).

Definition onlyIgnored (k : string) (opts : list (string * ExtraOption)) : Prop :=
  ∀ o, (k, o) ∈ opts → eo_type o = Some "ignore".

Definition elementOnlyIgnores (k : string) (e : Element) : Prop :=
  onlyIgnored k (default [] (extra_options e)).

End Collector.

(** ** CrossDocumentInjector: [injectCSSFiles], [injectJSFilesAsync] *)

Module Injector.
Import Dom.

(** [injectCSSFiles(doc, cssFiles, selectedTheme)] *)
Definition injectCSSFiles (d : Document) (cssFiles : list string)
    (selectedTheme : string) : Document :=
  fold_left
    (λ doc href,
       let '(link, doc1) := createElement "link" doc in
       let link1 := setAttribute "rel" "stylesheet" link in
       let link2 := setAttribute "href" href link1 in
       let link3 := setAttribute "data-theme" selectedTheme link2 in
       appendToHead link3 doc1)
    cssFiles d.

(** [[...new Set(jsFiles)]]: first occurrences, in insertion order. *)
Definition uniqueFiles (jsFiles : list string) : list string :=
  fold_left (λ seen x, if bool_decide (x ∈ seen) then seen else seen ++ [x])
            jsFiles [].

(** What happens to the isolated document and the console, in time order. *)
Inductive Effect : Type :=
  | Appended (n : Node)
  | Dispatched (eventType : string)
  | ConsoleError (err : string).

Record World : Type := mkWorld {
  doc : Document;
  trace : list Effect
}.

(** A fetched response: reading its body as text may itself fail. *)
Record Response : Type := mkResponse {
  text : Settled string
}.

(** A promise whose callbacks act on the world. *)
Definition Async (A : Type) : Type := World → World * Settled A.

Definition settledP {A} (r : Settled A) : Async A := λ w, (w, r).

Definition thenP {A B} (p : Async A) (f : A → Async B) : Async B :=
  λ w, match p w with
       | (w1, Fulfilled a) => f a w1
       | (w1, Rejected e) => (w1, Rejected e)
       end.

Definition catchP {A} (p : Async A) (h : string → Async A) : Async A :=
  λ w, match p w with
       | (w1, Fulfilled a) => (w1, Fulfilled a)
       | (w1, Rejected e) => h e w1
       end.

Definition appendChildBody (n : Node) : Async unit :=
  λ w, (mkWorld (appendToBody n (doc w)) (trace w ++ [Appended n]), Fulfilled tt).

Definition dispatchEvent (eventType : string) : Async unit :=
  λ w, (mkWorld (doc w) (trace w ++ [Dispatched eventType]), Fulfilled tt).

Definition consoleError (err : string) : Async unit :=
  λ w, (mkWorld (doc w) (trace w ++ [ConsoleError err]), Fulfilled tt).

Definition createScript (code selectedTheme : string) : Async Node :=
  λ w, let '(s, d1) := createElement "script" (doc w) in
       let s1 := setAttribute "type" "text/javascript" s in
       let s2 := setTextContent code s1 in
       let s3 := setAttribute "data-theme" selectedTheme s2 in
       (mkWorld d1 (trace w), Fulfilled s3).

Definition isReady (d : Document) : bool :=
  match readyState d with
  | Complete | Interactive => true
  | Loading => false
  end.

Section Inject.
(** [JSON.stringify] on the options object, and what [fetch] settles to
    for each URL. *)
Variable JSON_stringify : gmap string JSVal → string.
Variable fetch : string → Settled Response.

(** [generateOptionsScript(selectedTheme, jsOptions)] *)
Definition generateOptionsScript (selectedTheme : string)
    (jsOptions : gmap string JSVal) : string :=
  if bool_decide (size jsOptions = 0) then ""
  else "window[" +:+ dquote +:+ selectedTheme +:+ "ThemeOptions" +:+ dquote
       +:+ "] = " +:+ JSON_stringify jsOptions +:+ ";".

(** The callback of the second [then]: build the inline script, append
    it, and dispatch the ready signal. *)
Definition injectInline (selectedTheme code : string) : Async unit :=
  thenP (createScript code selectedTheme) (λ inlineScript,
  thenP (appendChildBody inlineScript) (λ _,
  λ w, if isReady (doc w) then dispatchEvent "DOMContentLoaded" w
       else (w, Fulfilled tt))).

(** One element of [loadPromises]:
    [fetch(src).then(res => res.text()).then(code => ...).catch(err => ...)] *)
Definition loadPromise (selectedTheme src : string) : Async unit :=
  catchP
    (thenP (thenP (settledP (fetch src)) (λ res, settledP (text res)))
           (injectInline selectedTheme))
    consoleError.

(** The injection in flight: the world, the fetches not settled yet, and
    how the settled elements of [loadPromises] ended, in settling order. *)
Record Injection : Type := mkInjection {
  world : World;
  pending : list string;
  settled : list (Settled unit)
}.

(** The synchronous part of [injectJSFilesAsync], up to [Promise.all]. *)
Definition injectStart (d : Document) (jsFiles : list string)
    (selectedTheme : string) (jsOptions : gmap string JSVal) : Injection :=
  let optionsScript := generateOptionsScript selectedTheme jsOptions in
  let w0 := mkWorld d [] in
  let w1 :=
    if negb (String.eqb optionsScript "") then
      let '(optScript, d1) := createElement "script" d in
      let s1 := setAttribute "type" "text/javascript" optScript in
      let s2 := setTextContent optionsScript s1 in
      let s3 := setAttribute "data-theme" selectedTheme s2 in
      (appendChildBody s3 (mkWorld d1 [])).1
    else w0 in
  mkInjection w1 (uniqueFiles jsFiles) [].

(** The chain of [src] runs to its end.  Its first two links touch
    nothing; its effects are those of the last callback to run, which is
    one task of the event loop. *)
Definition settle (selectedTheme src : string) (st : Injection) : Injection :=
  let '(w1, r) := loadPromise selectedTheme src (world st) in
  mkInjection w1 (filter (λ u, u ≠ src) (pending st)) (settled st ++ [r]).

(** The event loop picks any fetch still in flight. *)
Inductive step (selectedTheme : string) : Injection → Injection → Prop :=
  | step_settle st src :
      src ∈ pending st → step selectedTheme st (settle selectedTheme src st).

(** [await Promise.all(loadPromises)]: rejected by the first rejection,
    fulfilled once every element is, and pending until then. *)
Fixpoint firstRejection (rs : list (Settled unit)) : option string :=
  match rs with
  | [] => None
  | Rejected e :: _ => Some e
  | Fulfilled _ :: rs' => firstRejection rs'
  end.

Definition promiseAll (st : Injection) : option (Settled unit) :=
  match firstRejection (settled st) with
  | Some e => Some (Rejected e)
  | None => if bool_decide (pending st = []) then Some (Fulfilled tt) else None
  end.

(** The fetches settle in the order [order]. *)
Definition settleInOrder (selectedTheme : string) (order : list string)
    (st : Injection) : Injection :=
  fold_left
    (λ s src, if bool_decide (src ∈ pending s) then settle selectedTheme src s else s)
    order st.

(** [injectJSFilesAsync(doc, jsFiles, selectedTheme, jsOptions)] under the
    completion order [order]: the state it leaves and how its promise
    ends ([None]: it never settles, some fetch being still in flight). *)
Definition injectJSFilesAsync (order : list string) (d : Document)
    (jsFiles : list string) (selectedTheme : string)
    (jsOptions : gmap string JSVal) : Injection * option (Settled unit) :=
  let st := settleInOrder selectedTheme order
              (injectStart d jsFiles selectedTheme jsOptions) in
  (st, promiseAll st).
End Inject.

(** What a run shows from outside: the text of each script appended, each
    event dispatched, each error logged. *)
Inductive Event : Type :=
  | ScriptAppended (code : string)
  | SignalDispatched (eventType : string)
  | ErrorLogged (err : string).

Definition observe (e : Effect) : Event :=
  match e with
  | Appended n => ScriptAppended (textContent n)
  | Dispatched ev => SignalDispatched ev
  | ConsoleError err => ErrorLogged err
  end.

Definition appendedNodes (t : list Effect) : list Node :=
  omap (λ e, match e with Appended n => Some n | _ => None end) t.

Definition loggedErrors (t : list Effect) : list string :=
  omap (λ e, match e with ConsoleError err => Some err | _ => None end) t.

(** The effects on the document alone. *)
Definition documentEvents (t : list Effect) : list Event :=
  omap (λ e, match e with ConsoleError _ => None | _ => Some (observe e) end) t.

(** The ready signal as the specification words it: it comes after all
    appends of scripts, none is appended once it has been dispatched. *)
Definition appendsPrecedeSignal (t : list Effect) : Prop :=
  ∀ i j ev n, t !! i = Some (Dispatched ev) → t !! j = Some (Appended n) → j < i.

(** The inline script [injectInline] builds in document [d]. *)
Definition inlineScript (d : Document) (selectedTheme code : string) : Node :=
  setAttribute "data-theme" selectedTheme
    (setTextContent code
       (setAttribute "type" "text/javascript" (createElement "script" d).1)).

(** Reading the events of a trace. *)
Definition scriptTexts (evs : list Event) : list string :=
  omap (λ ev, match ev with ScriptAppended c => Some c | _ => None end) evs.


Definition withoutErrors (evs : list Event) : list Event :=
  omap (λ ev, match ev with ErrorLogged _ => None | _ => Some ev end) evs.

Section Observed.
Variable JSON_stringify : gmap string JSVal → string.
Variable fetch : string → Settled Response.

(** The text a URL ends up giving, through [fetch] and [res.text()]. *)
Definition fetchedCode (src : string) : Settled string :=
  match fetch src with
  | Fulfilled res => text res
  | Rejected e => Rejected e
  end.

Definition succeeded (order : list string) : list string :=
  omap (λ src, match fetchedCode src with
               | Fulfilled code => Some code
               | Rejected _ => None
               end) order.


(** What the chain of one URL shows when it ends. *)
Definition expected (ready : bool) (src : string) : list Event :=
  match fetchedCode src with
  | Fulfilled code =>
      ScriptAppended code
        :: (if ready then [SignalDispatched "DOMContentLoaded"] else [])
  | Rejected e => [ErrorLogged e]
  end.

Variable d : Document.
Variable jsFiles : list string.
Variable selectedTheme : string.
Variable jsOptions : gmap string JSVal.

(** What holds of a state the run has reached, [done] being the URLs
    whose chain has ended, in the order they ended. *)
Record Reached (st : Injection) (done : list string) : Prop := mkReached {
  reached_perm : done ++ pending st ≡ₚ uniqueFiles jsFiles;
  reached_nodup : NoDup (pending st);
  reached_trace :
    observe <$> trace (world st)
    = (observe <$> trace (world
         (injectStart JSON_stringify d jsFiles selectedTheme jsOptions)))
      ++ flat_map (expected (isReady d)) done;
  reached_settled : settled st = (λ _, Fulfilled tt) <$> done;
  reached_ready : isReady (doc (world st)) = isReady d;
  reached_body : body (doc (world st)) = body d ++ appendedNodes (trace (world st));
  reached_tagged :
    Forall (λ n, themeAssetSelector n = true ∧
                 getAttribute "data-theme" n = Some selectedTheme)
           (appendedNodes (trace (world st)))
}.
End Observed.

End Injector.

(** ** The admin page: overlay, device layout, refresh coordinator *)

Module Preview.
Import Dom Collector Injector.

(** [getBoundingClientRect()]: the numbers layout gives are finite, the
    width and the height not negative; an element that is not rendered
    has a rectangle of zeros. *)
Record Rect : Type := mkRect {
  r_left : float;
  r_top : float;
  r_width : float;
  r_height : float
}.

Record DeviceConfig : Type := mkDeviceConfig {
  baseWidth : float;
  container : string;
  screen : string
}.

Definition DEVICE_CONFIG : list (string * DeviceConfig) :=
  [ ("ordi", mkDeviceConfig 1300 ".monitor-preview" ".screenOrdi .content");
    ("tel", mkDeviceConfig 500 ".iphone" ".iphone .screenMobile");
    ("tablet", mkDeviceConfig 800 ".ipad" ".ipad .screenMobile") ].

(** [DEVICE_CONFIG[key]], for the keys the page uses (the names of
    [deviceMap] and [currentDevice]); a name that a plain object
    inherits, such as [constructor], is no such key. *)
Definition deviceConfig (key : string) : option DeviceConfig :=
  snd <$> find (λ kv, String.eqb kv.1 key) DEVICE_CONFIG.

(** [API_ENDPOINTS.opacPreview] *)
Definition opacPreview : string :=
  "/cgi-bin/koha/plugins/run.pl?class=Koha::Plugin::Celebrations&method=opac_preview".

(** The value [translate(<x>px, <y>px) scale(<s>)]. *)
Inductive Transform : Type :=
  | TranslateScale (x y s : float).

(** The inline style declarations the preview code writes, as assigned
    (lengths are in px; [None] is a declaration never written). *)
Record Style : Type := mkStyle {
  display : option string;
  opacity : option string;
  pointerEvents : option string;
  transform : option Transform;
  width : option float;
  height : option float
}.

Definition noStyle : Style := mkStyle None None None None None None.

Definition setDisplay (v : string) (s : Style) : Style :=
  mkStyle (Some v) (opacity s) (pointerEvents s) (transform s) (width s) (height s).
Definition setOpacity (v : string) (s : Style) : Style :=
  mkStyle (display s) (Some v) (pointerEvents s) (transform s) (width s) (height s).
Definition setPointerEvents (v : string) (s : Style) : Style :=
  mkStyle (display s) (opacity s) (Some v) (transform s) (width s) (height s).
(** A length [<x>px] the inline style accepts: a finite number that is
    not negative.  The assignment of another one ([NaNpx], [Infinitypx])
    is dropped and the declaration stays as it was. *)
Definition validLength (x : float) : bool :=
  PrimFloat.is_finite x && PrimFloat.leb 0 x.

(** The three assignments of [positionIframe] to the style of one
    element: [transform], [width] (a base width of [DEVICE_CONFIG]) and
    [height] (a quotient, which is no length when the region has
    collapsed). *)
Definition setBox (t : Transform) (w h : float) (s : Style) : Style :=
  mkStyle (display s) (opacity s) (pointerEvents s) (Some t) (Some w)
          (if validLength h then Some h else height s).

(** What the frame gives when its document is asked for:
    [iframe.contentDocument || iframe.contentWindow.document]. *)
Inductive FrameDoc : Type :=
  | Accessible (d : Document)
  | NoDocument
  | Inaccessible (err : string).

(** The two functions the code assigns to [iframe.onload]. *)
Inductive OnloadHandler : Type :=
  | SwitchOnload
  | ReloadResolve.

Record Iframe : Type := mkIframe {
  src : string;
  inDocument : bool;
  style : Style;
  onload : option OnloadHandler;
  content : FrameDoc
}.

(** The fixed container with its two children: the preview iframe and the
    loading overlay. *)
Record Container : Type := mkContainer {
  containerDisplay : option string;
  frame : option Iframe;
  overlay : option Style
}.

Record Button : Type := mkButton {
  disabled : bool;
  cursor : option string
}.

(** The module variables of devicePreview.js ([iframeContainer] with the
    [iframe] it holds, [currentDevice], [isInitialized],
    [initialPreviewDone]) and the parts of the admin page they act on:
    [chrome] gives the [display] of each device container and [screens]
    the bounding rectangle of each screen region, by selector (no entry:
    no such element); [switchQueued] says that the first load has asked
    for [switchToDevice(currentDevice)] two animation frames later. *)
Record Page : Type := mkPage {
  iframeContainer : option Container;
  currentDevice : string;
  isInitialized : bool;
  initialPreviewDone : bool;
  switchQueued : bool;
  chrome : gmap string string;
  screens : gmap string Rect;
  previewButton : option Button;
  createButton : option Button;
  inputs : gmap string Input;
  window : gmap string JSVal;
  warnings : list string
}.

Definition setContainer (c : option Container) (p : Page) : Page :=
  mkPage c (currentDevice p) (isInitialized p) (initialPreviewDone p)
    (switchQueued p) (chrome p) (screens p) (previewButton p) (createButton p)
    (inputs p) (window p) (warnings p).
Definition setCurrentDevice (k : string) (p : Page) : Page :=
  mkPage (iframeContainer p) k (isInitialized p) (initialPreviewDone p)
    (switchQueued p) (chrome p) (screens p) (previewButton p) (createButton p)
    (inputs p) (window p) (warnings p).
Definition setInitialized (b : bool) (p : Page) : Page :=
  mkPage (iframeContainer p) (currentDevice p) b (initialPreviewDone p)
    (switchQueued p) (chrome p) (screens p) (previewButton p) (createButton p)
    (inputs p) (window p) (warnings p).
Definition setInitialPreview (done queued : bool) (p : Page) : Page :=
  mkPage (iframeContainer p) (currentDevice p) (isInitialized p) done
    queued (chrome p) (screens p) (previewButton p) (createButton p)
    (inputs p) (window p) (warnings p).
Definition setChrome (c : gmap string string) (p : Page) : Page :=
  mkPage (iframeContainer p) (currentDevice p) (isInitialized p)
    (initialPreviewDone p) (switchQueued p) c (screens p) (previewButton p)
    (createButton p) (inputs p) (window p) (warnings p).
Definition setButtons (b1 b2 : option Button) (p : Page) : Page :=
  mkPage (iframeContainer p) (currentDevice p) (isInitialized p)
    (initialPreviewDone p) (switchQueued p) (chrome p) (screens p) b1 b2
    (inputs p) (window p) (warnings p).
Definition consoleWarn (msg : string) (p : Page) : Page :=
  mkPage (iframeContainer p) (currentDevice p) (isInitialized p)
    (initialPreviewDone p) (switchQueued p) (chrome p) (screens p)
    (previewButton p) (createButton p) (inputs p) (window p)
    (warnings p ++ [msg]).

(** The module variable [iframe]. *)
Definition iframe (p : Page) : option Iframe := iframeContainer p ≫= frame.

(** [document.getElementById('preview-loading-overlay')] *)
Definition overlayElement (p : Page) : option Style := iframeContainer p ≫= overlay.

(** [getById('theme-preview')] *)
Definition themePreview (p : Page) : option Iframe :=
  iframe p ≫= λ fr, if inDocument fr then Some fr else None.

Definition setFrame (fr : Iframe) (p : Page) : Page :=
  setContainer
    ((λ c, mkContainer (containerDisplay c) (Some fr) (overlay c)) <$> iframeContainer p) p.

Definition setOverlay (ov : Style) (p : Page) : Page :=
  setContainer
    ((λ c, mkContainer (containerDisplay c) (frame c) (Some ov)) <$> iframeContainer p) p.

Definition setContainerDisplay (v : string) (p : Page) : Page :=
  setContainer
    ((λ c, mkContainer (Some v) (frame c) (overlay c)) <$> iframeContainer p) p.

(** [createFixedIframeContainer()] *)
Definition createFixedIframeContainer (p : Page) : Page :=
  match iframeContainer p with
  | Some _ => p
  | None => setContainer (Some (mkContainer None None None)) p
  end.

(** [createIframe()]: the new frame starts on an empty document; its
    [load] listener is [createdLoadListener] below. *)
Definition createIframe (p : Page) : Page :=
  match iframe p with
  | Some _ => p
  | None =>
      setFrame (mkIframe opacPreview true noStyle None (Accessible readyDocument))
               (createFixedIframeContainer p)
  end.

(** [createLoadingOverlay()] *)
Definition createLoadingOverlay (p : Page) : Page :=
  setOverlay noStyle (createFixedIframeContainer p).

(** [showLoadingOverlay()]; the opacity is written on the next animation
    frame. *)
Definition showLoadingOverlay (p : Page) : Page :=
  let p1 := match overlayElement p with
            | Some _ => p
            | None => createLoadingOverlay p
            end in
  match overlayElement p1 with
  | Some ov => setOverlay (setOpacity "1" (setDisplay "flex" ov)) p1
  | None => p1
  end.

(** [hideLoadingOverlay()], once its 2500 ms timer has fired. *)
Definition hideLoadingOverlay (p : Page) : Page :=
  match overlayElement p with
  | None => p
  | Some ov => setOverlay (setPointerEvents "none" (setDisplay "none" ov)) p
  end.

(** The body of the loop of [toggleButtons(buttons, disabled)]. *)
Definition toggleButton (isDisabled : bool) (btn : option Button) : option Button :=
  match btn with
  | Some _ => Some (mkButton isDisabled
                      (Some (if isDisabled then "not-allowed" else "pointer")))
  | None => None
  end.

(** [toggleButtons([previewBtn, createBtn], disabled)] *)
Definition toggleButtons (isDisabled : bool) (p : Page) : Page :=
  setButtons (toggleButton isDisabled (previewButton p))
             (toggleButton isDisabled (createButton p)) p.

(** [positionIframe()].  An assignment to a style takes effect when its
    value is valid: the transform and the width always are, for a
    rectangle given by layout and a base width of [DEVICE_CONFIG]; the
    height is dropped when the quotient is no length ([setBox]). *)
Definition positionIframe (p : Page) : Page :=
  match iframe p, overlayElement p with
  | Some fr, Some ov =>
      if negb (isInitialized p) then p
      else
        match deviceConfig (currentDevice p) with
        | None => p
        | Some config =>
            match screens p !! screen config with
            | None => p
            | Some rect =>
                let scale := (r_width rect / baseWidth config)%float in
                let t := TranslateScale (r_left rect) (r_top rect) scale in
                let w := baseWidth config in
                let h := (r_height rect / scale)%float in
                setOverlay (setBox t w h ov)
                  (setFrame (mkIframe (src fr) (inDocument fr)
                               (setBox t w h (style fr)) (onload fr) (content fr))
                     (setContainerDisplay "block" p))
            end
        end
  | _, _ => p
  end.

Definition disableInteractionsCode : string :=
  "document.addEventListener('click', (e) => { e.preventDefault(); e.stopPropagation(); }, true); document.addEventListener('submit', (e) => { e.preventDefault(); e.stopPropagation(); }, true);".

(** [injectDisableInteractions()] *)
Definition injectDisableInteractions (p : Page) : Page :=
  match iframe p with
  | None => consoleWarn "TypeError" p
  | Some fr =>
      match content fr with
      | Accessible d =>
          let '(script, d1) := createElement "script" d in
          let script1 := setTextContent disableInteractionsCode script in
          setFrame (mkIframe (src fr) (inDocument fr) (style fr) (onload fr)
                      (Accessible (appendToBody script1 d1))) p
      | NoDocument => p
      | Inaccessible err => consoleWarn err p
      end
  end.

(** [switchToDevice(deviceKey)] *)
Definition switchToDevice (deviceKey : string) (p : Page) : Page :=
  match deviceConfig deviceKey with
  | None => p
  | Some target =>
      let p1 := setCurrentDevice deviceKey p in
      let hidden :=
        fold_left (λ c kv, alter (λ _, "none") (container kv.2) c)
                  DEVICE_CONFIG (chrome p1) in
      let p2 := setChrome (alter (λ _, "block") (container target) hidden) p1 in
      match iframe p2 with
      | None => createIframe p2
      | Some _ =>
          let p3 := showLoadingOverlay p2 in
          match iframe p3 with
          | Some fr =>
              setFrame (mkIframe (src fr) (inDocument fr) (style fr)
                          (Some SwitchOnload) (content fr)) p3
          | None => p3
          end
      end
  end.

(** The handler [switchToDevice] assigns to [iframe.onload]. *)
Definition switchOnload (p : Page) : Page :=
  hideLoadingOverlay
    (positionIframe (injectDisableInteractions (setInitialized true p))).

(** The [load] listener installed by [createIframe]; the device switch it
    requests on the first load waits for two animation frames
    ([switchQueued]). *)
Definition createdLoadListener (p : Page) : Page :=
  let p1 := showLoadingOverlay p in
  let p2 := injectDisableInteractions (setInitialized true p1) in
  let p3 := if initialPreviewDone p2 then p2
            else setInitialPreview true true p2 in
  hideLoadingOverlay p3.

(** The queued callback [switchToDevice(currentDevice)]. *)
Definition runQueuedSwitch (p : Page) : Page :=
  if switchQueued p
  then switchToDevice (currentDevice p)
         (setInitialPreview (initialPreviewDone p) false p)
  else p.

(** The [load] event of the preview frame, [loaded] being what the frame
    holds now: the listener of [createIframe] runs, then the [onload]
    handler (registered later). *)
Definition iframeLoadEvent (loaded : FrameDoc) (p : Page) : Page :=
  match iframe p with
  | None => p
  | Some fr =>
      let p1 := setFrame (mkIframe (src fr) (inDocument fr) (style fr)
                            (onload fr) loaded) p in
      let p2 := createdLoadListener p1 in
      match onload fr with
      | Some SwitchOnload => switchOnload p2
      | Some ReloadResolve | None => p2
      end
  end.

Section Refresh.
Variable JSON_stringify : gmap string JSVal → string.
Variable fetch : string → Settled Response.

(** [updatePreview(rawThemes, themeName)], the frame reloading to
    [loaded] and the script fetches settling in the order [order]: the
    page it leaves and how its promise ends ([None]: never settled).
    The call is taken alone: from its request to reload the frame to the
    load event, [iframe.onload] keeps the resolver the call has assigned
    (a later assignment, by [switchToDevice] or by another call of
    [updatePreview], would discard it and the promise would stay
    pending). *)
Definition updatePreview (loaded : FrameDoc) (order : list string)
    (rawThemes : gmap string ThemeData) (themeName : string) (p : Page)
    : Page * option (Settled unit) :=
  let p1 := showLoadingOverlay p in
  let p2 := toggleButtons true p1 in
  match themePreview p2 with
  | None => (p2, Some (Fulfilled tt))
  | Some fr =>
      match rawThemes !! themeName with
      | None => (hideLoadingOverlay p2, Some (Fulfilled tt))
      | Some themeData =>
          let p3 := iframeLoadEvent loaded
                      (setFrame (mkIframe (src fr) (inDocument fr) (style fr)
                                   (Some ReloadResolve) (content fr)) p2) in
          match content <$> iframe p3 with
          | Some (Accessible d) =>
              let d1 := cleanOldAssets d in
              let assets := collectThemeAssets (inputs p3) (window p3)
                              themeData themeName in
              let d2 := injectCSSFiles d1 (cssFiles assets) themeName in
              let '(st, r) := injectJSFilesAsync JSON_stringify fetch order d2
                                (jsFiles assets) themeName (jsOptions assets) in
              let p4 :=
                match iframe p3 with
                | Some fr3 =>
                    setFrame (mkIframe (src fr3) (inDocument fr3) (style fr3)
                                (onload fr3) (Accessible (doc (world st)))) p3
                | None => p3
                end in
              match r with
              | Some (Fulfilled _) =>
                  (toggleButtons false (hideLoadingOverlay p4), Some (Fulfilled tt))
              | Some (Rejected e) => (p4, Some (Rejected e))
              | None => (p4, None)
              end
          | Some NoDocument | None => (hideLoadingOverlay p3, Some (Fulfilled tt))
          | Some (Inaccessible err) => (p3, Some (Rejected err))
          end
      end
  end.
End Refresh.

(** The layout as a function of the rendered width and height of the
    screen region and of the base width of the profile: the scale, the
    logical width and the logical height. *)
Definition layoutOf (w h bw : float) : float * float * float :=
  ((w / bw)%float, bw, (h / (w / bw))%float).

(** The styles and the frame content the steps of a load leave. *)
Definition shownStyle (ov : option Style) : Style :=
  setOpacity "1" (setDisplay "flex" (default noStyle ov)).

Definition hiddenStyle (ov : Style) : Style :=
  setPointerEvents "none" (setDisplay "none" ov).

Definition afterDisable (c : FrameDoc) : FrameDoc :=
  match c with
  | Accessible d =>
      Accessible (appendToBody
                    (setTextContent disableInteractionsCode (createElement "script" d).1)
                    (createElement "script" d).2)
  | NoDocument => NoDocument
  | Inaccessible err => Inaccessible err
  end.

Definition warnedBy (c : FrameDoc) (w : list string) : list string :=
  match c with
  | Inaccessible err => w ++ [err]
  | _ => w
  end.

Definition buttonsDisabled (p : Page) : option bool * option bool :=
  (disabled <$> previewButton p, disabled <$> createButton p).

Definition overlayDisplay (p : Page) : option string :=
  overlayElement p ≫= display.

End Preview.

(** ** Scenarios *)

Module Scenarios.
Import Dom Collector Injector Preview.

(** The snow and background scenario: a checked JS element and an
    unchecked CSS element. *)
Definition winterInputs : gmap string Input :=
  <["toggle_snow" := mkInput "checkbox" true "on"]>
    (<["toggle_bg" := mkInput "checkbox" false "on"]> ∅).

Definition winterTheme : ThemeData :=
  mkThemeData (Some
    [ ("snow", mkElement "toggle_snow" (Some "snow.js") (Some "js") None);
      ("bg", mkElement "toggle_bg" (Some "bg.css") (Some "css") None) ]).

(** A text input left empty as the primary setting of a CSS element. *)
Definition emptyTextInputs : gmap string Input :=
  <["bg_color" := mkInput "text" false ""]> ∅.

Definition colorTheme : ThemeData :=
  mkThemeData (Some
    [ ("bg", mkElement "bg_color" (Some "bg.css") (Some "css") None) ]).

(** An ignore option under an unchecked element. *)
Definition uncheckedInputs : gmap string Input :=
  <["toggle_snow" := mkInput "checkbox" false "on"]> ∅.

Definition ignoreTheme : ThemeData :=
  mkThemeData (Some
    [ ("snow", mkElement "toggle_snow" (Some "snow.js") (Some "js")
                 (Some [("api_namespace", mkExtraOption (Some "ignore") None None)])) ]).

Definition someWindow : gmap string JSVal :=
  <["api_namespace" := VStr "celebrations"]> ∅.

Definition checkedInputs : gmap string Input :=
  <["toggle_snow" := mkInput "checkbox" true "on"]> ∅.

Definition orphanTheme : ThemeData :=
  mkThemeData (Some
    [ ("trail", mkElement "no_such_input" (Some "trail.js") None None) ]).

(** A document holding stale theme assets: a tagged stylesheet in the
    head, and in the body a tagged script inside a block next to a
    paragraph, followed by a script of the page itself. *)
Definition staleDocument : Document :=
  mkDocument Complete
    [ mkNode 1 "link" [("rel", "stylesheet"); ("data-theme", "noel")] "" [];
      mkNode 2 "link" [("rel", "stylesheet")] "" [] ]
    [ mkNode 3 "div" []  ""
        [ mkNode 4 "script" [("data-theme", "noel")] "snow()" [];
          mkNode 5 "p" [] "Bienvenue" [] ];
      mkNode 6 "script" [] "opac()" [] ]
    7.

Definition bothFetched (src : string) : Settled Response :=
  if String.eqb src "a.js" then Fulfilled (mkResponse (Fulfilled "A"))
  else if String.eqb src "b.js" then Fulfilled (mkResponse (Fulfilled "B"))
  else Rejected "404".

Definition noStringify (o : gmap string JSVal) : string := "{}".

(** The scenario of the partial failure: a.js cannot be fetched, b.js can. *)
Definition firstFails (src : string) : Settled Response :=
  if String.eqb src "b.js" then Fulfilled (mkResponse (Fulfilled "B"))
  else Rejected "Failed to fetch".

(** A page with its preview loaded, showing the desktop. *)
Definition desktopPage : Page :=
  mkPage
    (Some (mkContainer (Some "block")
             (Some (mkIframe opacPreview true noStyle None (Accessible readyDocument)))
             (Some (setDisplay "none" noStyle))))
    "ordi" true true false
    (<[".monitor-preview" := "block"]>
       (<[".iphone" := "none"]> (<[".ipad" := "none"]> ∅)))
    (<[".screenOrdi .content" := mkRect 100 50 650 400]>
       (<[".iphone .screenMobile" := mkRect 40 20 325 650]> ∅))
    (Some (mkButton false None)) (Some (mkButton false None))
    ∅ ∅ [].

(** The page once none of its screen regions is rendered any more. *)
Definition collapse (p : Page) : Page :=
  mkPage (iframeContainer p) (currentDevice p) (isInitialized p)
    (initialPreviewDone p) (switchQueued p) (chrome p)
    ((λ _, mkRect 0 0 0 0) <$> screens p) (previewButton p) (createButton p)
    (inputs p) (window p) (warnings p).

(** The double nearest to 0.65, the quotient 325 / 500. *)
Definition scale_325_500 : float := 0x1.4cccccccccccdp-1%float.

(** The page after the switch to the phone and the load of the frame. *)
Definition phonePage : Page :=
  iframeLoadEvent (Accessible readyDocument) (switchToDevice "tel" desktopPage).

(** A page on which the preview frame has not been created yet. *)
Definition barePage : Page :=
  mkPage None "ordi" false false false ∅ ∅
    (Some (mkButton false None)) (Some (mkButton false None)) ∅ ∅ [].

Definition winterThemes : gmap string ThemeData :=
  <["winter" := winterTheme]> ∅.

Definition snowUrl : string := assetUrl "js" "winter" "snow.js".

Definition snowFetched (src : string) : Settled Response :=
  if String.eqb src snowUrl then Fulfilled (mkResponse (Fulfilled "snow()"))
  else Rejected "Failed to fetch".

Definition refresh (loaded : FrameDoc) (p : Page) : Page * option (Settled unit) :=
  updatePreview noStringify snowFetched loaded [snowUrl]
    winterThemes "winter" p.

End Scenarios.

(** ** What the injector leaves in a document *)

Module Injected.
Import Dom Injector.

(** The stylesheet link [injectCSSFiles] builds for [href], with identity
    [i]. *)
Definition cssLink (i : nat) (href selectedTheme : string) : Node :=
  mkNode i "link"
    [("rel", "stylesheet"); ("href", href); ("data-theme", selectedTheme)] "" [].

(** The links built for a list of URLs, the first with identity [a]. *)
Definition linksFrom (a : nat) (selectedTheme : string) (hrefs : list string)
    : list Node :=
  imap (λ k href, cssLink (a + k) href selectedTheme) hrefs.

(** The identities in use are below the next one to be given. *)
Definition freshIds (d : Document) : Prop :=
  Forall (λ n, nid n < nextNid d) (docNodes d).

(** The document after [k] more elements have been created and dropped. *)
Definition advance (k : nat) (d : Document) : Document :=
  mkDocument (readyState d) (head d) (body d) (nextNid d + k).

(** Every [link] or [script] element of the document that has a
    [data-theme] attribute has [selectedTheme] as its value. *)
Definition onlyTheme (selectedTheme : string) (d : Document) : Prop :=
  Forall (λ n, getAttribute "data-theme" n = Some selectedTheme)
         (querySelectorAll themeAssetSelector d).

End Injected.

(** ** Where a collected option comes from *)

Module Collected.
Import Collector.

(** The extra option [o] declared under [k] gives the value [v]: the
    global [k] for an option of type ignore, otherwise the non-empty
    value of the active input [k]. *)
Definition optionSource (inputs : gmap string Input) (window : gmap string JSVal)
    (k : string) (v : JSVal) (o : ExtraOption) : Prop :=
  (eo_type o = Some "ignore" ∧ v = windowGet window k) ∨
  (eo_type o ≠ Some "ignore" ∧
   ∃ i, getById inputs k = Some i ∧ extraActive (Some i) = true ∧
        value i ≠ "" ∧ v = VStr (value i)).

End Collected.

(** ** What a device switch shows *)

Module Shown.
Import Preview.

(** The selectors of the device containers. *)
Definition deviceContainers : list string :=
  (λ kv : string * DeviceConfig, container kv.2) <$> DEVICE_CONFIG.

(** The [display] a device container is left with when [target] is the
    device switched to. *)
Definition displayFor (target : DeviceConfig) (sel : string) : string :=
  if bool_decide (sel = container target) then "block" else "none".

End Shown.

(** ** Start of the preview *)

Module Startup.
Import Dom Preview.

(** [existing.remove()] on the preview frame: the element leaves the
    page and its document is discarded; the module variable [iframe]
    keeps pointing to it. *)
Definition removeExisting (p : Page) : Page :=
  match themePreview p with
  | Some fr =>
      setFrame (mkIframe (src fr) false (style fr) (onload fr) NoDocument) p
  | None => p
  end.

(** [initDevicePreviewSwitcher()]; the listeners registered by
    [initRadioListeners] and [setupAutoReposition] change nothing until
    their events fire. *)
Definition initDevicePreviewSwitcher (p : Page) : Page :=
  let p1 := createIframe (removeExisting p) in
  switchToDevice (currentDevice p1) p1.

(** The box [positionIframe] writes for a profile and a screen region. *)
Definition boxFor (config : DeviceConfig) (rect : Rect) (st : Style) : Style :=
  setBox (TranslateScale (r_left rect) (r_top rect)
            (r_width rect / baseWidth config)%float)
         (baseWidth config)
         (r_height rect / (r_width rect / baseWidth config))%float st.

End Startup.

(** ** The device radios (devicePreview.js) *)

Module Radios.
Import Preview.

(** [deviceMap] of [initRadioListeners]. *)
Definition deviceMap : list string := ["ordi"; "tel"; "tablet"].

(** The [change] listener of the radio at position [index];
    [deviceMap[index]] is [undefined] past the third radio, which is no
    key of [DEVICE_CONFIG], and [switchToDevice] returns at once. *)
Definition radioChange (index : nat) (isChecked : bool) (p : Page) : Page :=
  if isChecked then
    match deviceMap !! index with
    | Some deviceKey => switchToDevice deviceKey p
    | None => p
    end
  else p.

End Radios.

(** ** The configured themes (utils.js, themeGrid.js, themeOptions.js) *)

Module Themes.
Import Collector.

(** [Boolean(v)] *)
Definition toBoolean (v : JSVal) : bool :=
  match v with
  | VUndefined => false
  | VBool b => b
  | VNum x => negb (PrimFloat.eqb x 0 || PrimFloat.is_nan x)
  | VStr s => negb (String.eqb s "")
  end.

(** An element of a configured theme. *)
Record ElementConf : Type := mkElementConf {
  enabled : JSVal
}.

(** A configured theme, as the API returns it.  The dates are timestamps
    in whole seconds; an element that is [null] is [None], and so is an
    [elements] property that is missing or no object. *)
Record Theme : Type := mkTheme {
  name : option string;
  theme_name : option string;
  active : JSVal;
  start_date : Z;
  elements : option (list (string * option ElementConf))
}.





(** The comparator of [sortThemes]. *)
Definition compareThemes (a b : Theme) : Z :=
  if toBoolean (active a) && negb (toBoolean (active b)) then (-1)%Z
  else if negb (toBoolean (active a)) && toBoolean (active b) then 1%Z
  else (start_date b - start_date a)%Z.

(** [Array.prototype.sort] is stable; with a comparator that is a total
    preorder its result is the stable sort, computed here by insertion. *)
Fixpoint insertBy {A : Type} (cmp : A → A → Z) (x : A) (l : list A) : list A :=
  match l with
  | [] => [x]
  | y :: l' => if (cmp x y <=? 0)%Z then x :: y :: l' else y :: insertBy cmp x l'
  end.

Definition sortBy {A : Type} (cmp : A → A → Z) (l : list A) : list A :=
  foldr (insertBy cmp) [] l.

(** [sortThemes(themes)] *)
Definition sortThemes (themes : list (string * Theme)) : list Theme :=
  sortBy compareThemes (snd <$> themes).

Record SelectOption : Type := mkSelectOption {
  o_value : string;
  o_text : string
}.

(** A [select] element: its value and its options. *)
Record Select : Type := mkSelect {
  s_value : string;
  options : list SelectOption
}.

(** [t.name || t.theme_name] *)
Definition nameOf (t : Theme) : option string :=
  if truthy (name t) then name t else theme_name t.

(** [refreshThemeSelect(themesConf, allTheme, themeSelect)], [themesConf]
    given by its values and [form] being [TRANSLATION_UI.form]: the
    select it leaves and the events it dispatches on it, in order.  A
    select rebuilt from nothing shows its first option. *)
Definition refreshThemeSelect (form : gmap string string)
    (themesConf : list Theme) (allTheme : list (string * ThemeData))
    (themeSelect : option Select) : option (Select * list string) :=
  match themeSelect with
  | None => None
  | Some sel =>
      let existingThemeNames := nameOf <$> themesConf in
      let selectedValue := s_value sel in
      let opts :=
        (λ themeKey,
           mkSelectOption themeKey
             (if truthy (form !! themeKey) then default "" (form !! themeKey)
              else themeKey))
        <$> filter (λ themeKey, Some themeKey ∉ existingThemeNames)
                   (fst <$> allTheme) in
      let rebuilt := mkSelect (default "" (o_value <$> head opts)) opts in
      let sel1 :=
        if bool_decide (selectedValue ∈ o_value <$> opts)
        then mkSelect selectedValue opts else rebuilt in
      Some (sel1,
            ["change";
             if bool_decide (length (options sel1) = 0%nat)
             then "allConfigured" else "notAllConfigured"])
  end.

(** [areAllThemesConfigured(allThemes, rawThemes)] *)
Definition areAllThemesConfigured (allThemes : list (string * Theme))
    (rawThemes : list (string * ThemeData)) : bool :=
  bool_decide (length (fst <$> rawThemes) ≤ length (fst <$> allThemes))%nat.

(** [a] may come before [b] in the grid. *)
Definition mayPrecede (a b : Theme) : Prop :=
  (toBoolean (active b) = true → toBoolean (active a) = true) ∧
  (toBoolean (active a) = toBoolean (active b) →
   (start_date b ≤ start_date a)%Z).

End Themes.

(** ** The payloads sent to the server (formHandler.js) *)

Module Form.
Import Collector.

Record ElementPayload : Type := mkElementPayload {
  enabled : bool;
  options : gmap string JSVal
}.

Section Payload.
Variable inputs : gmap string Input.

(** [input.type === 'checkbox' ? input.checked : input.value], for an
    element that has a value. *)
Definition optionValue (i : Input) : JSVal :=
  if String.eqb (itype i) "checkbox" then VBool (checked i) else VStr (value i).

(** The loop over [Object.keys(element.extra_options)], common to
    [submitThemeForm] and [updateTheme]. *)
Definition collectOptions (opts : list (string * ExtraOption))
    : gmap string JSVal :=
  fold_left (λ m entry,
               match getById inputs entry.1 with
               | Some extraInput => <[entry.1 := optionValue extraInput]> m
               | None => m
               end)
            opts ∅.

(** The [enabled] flag [submitThemeForm] computes. *)
Definition submitEnabled (mainInput : option Input) : bool :=
  match mainInput with
  | Some i =>
      if String.eqb (itype i) "checkbox" then checked i
      else negb (String.eqb (value i) "")
  | None => false
  end.

(** [mainInput?.checked || false] of [updateTheme]. *)
Definition updateEnabled (mainInput : option Input) : bool :=
  match mainInput with
  | Some i => checked i
  | None => false
  end.

Definition elementPayload (flag : option Input → bool) (element : Element)
    : ElementPayload :=
  mkElementPayload (flag (getById inputs (setting element)))
    (match extra_options element with
     | Some opts => collectOptions opts
     | None => ∅
     end).

Definition elementsPayload (flag : option Input → bool)
    (themeData : option ThemeData) : gmap string ElementPayload :=
  fold_left (λ m entry, <[setting entry.2 := elementPayload flag entry.2]> m)
            (default [] (themeData ≫= Collector.elements)) ∅.

(** The [elements] of the payload [submitThemeForm] posts. *)
Definition submitThemeForm (rawThemes : gmap string ThemeData)
    (selectedTheme : string) : gmap string ElementPayload :=
  elementsPayload submitEnabled (rawThemes !! selectedTheme).

(** The [elements] of the payload [updateTheme] puts. *)
Definition updateTheme (rawThemes : gmap string ThemeData)
    (themeName : string) : gmap string ElementPayload :=
  elementsPayload updateEnabled (rawThemes !! themeName).
End Payload.

End Form.

(** ** More scenarios *)

Module Cases.
Import Dom Collector Injector Preview Themes.

(** A document of the catalogue itself: no theme asset in it. *)
Definition plainDocument : Document :=
  mkDocument Complete
    [ mkNode 1 "link" [("rel", "stylesheet")] "" [] ]
    [ mkNode 2 "script" [] "opac()" [] ]
    3.

(** The admin page before the preview is started. *)
Definition freshPage : Page :=
  mkPage None "ordi" false false false
    (<[".monitor-preview" := "block"]>
       (<[".iphone" := "none"]> (<[".ipad" := "none"]> ∅)))
    (<[".screenOrdi .content" := mkRect 100 50 650 400]>
       (<[".iphone .screenMobile" := mkRect 40 20 325 650]> ∅))
    (Some (mkButton false None)) (Some (mkButton false None))
    ∅ ∅ [].

(** A configured theme with five elements enabled out of six. *)
Definition noelConfigured : Theme :=
  mkTheme (Some "noel") (Some "noel") (VNum 1) 1766534400
    (Some [ ("snow", Some (mkElementConf (VBool true)));
            ("footer", Some (mkElementConf (VBool true)));
            ("garland", Some (mkElementConf (VBool false)));
            ("gifts", Some (mkElementConf (VNum 1)));
            ("lights", Some (mkElementConf (VBool true)));
            ("sleigh", Some (mkElementConf (VStr "on"))) ]).

Definition paquesConfigured : Theme :=
  mkTheme (Some "paques") (Some "paques") (VNum 0) 1775001600 None.

(** Every available theme is configured. *)
Definition allThemes : list (string * Theme) :=
  [ ("noel", noelConfigured); ("paques", paquesConfigured) ].

Definition rawThemes : list (string * ThemeData) :=
  [ ("noel", mkThemeData None); ("paques", mkThemeData None) ].

(** A range input as the primary setting of an element. *)
Definition rangeInputs : gmap string Input :=
  <["quantite_flocons" := mkInput "range" false "50"]> ∅.

Definition rangeTheme : ThemeData :=
  mkThemeData (Some
    [ ("snow", mkElement "quantite_flocons" (Some "snow.js") (Some "js") None) ]).

End Cases.

(** * Properties *)

(** ** Cleaning the isolated document *)

Module DomFacts.
Import Dom Scenarios.

Lemma elem_of_flat_map {A B} (f : A → list B) (l : list A) (y : B) :
  y ∈ flat_map f l ↔ ∃ x, x ∈ l ∧ y ∈ f x.
Proof.
  rewrite list_elem_of_In, in_flat_map.
  split; intros (x & Hx & Hy); exists x.
  - by rewrite !list_elem_of_In.
  - by rewrite <- !list_elem_of_In.
Qed.

Lemma sameElement_selector x y :
  sameElement x y → themeAssetSelector x = themeAssetSelector y.
Proof.
  intros (_ & Ht & Ha). unfold themeAssetSelector, hasAttribute.
  by rewrite Ht, Ha.
Qed.

Lemma removeFrom_root i n : sameElement (removeFrom i n) n.
Proof. by destruct n. Qed.

Lemma subtree_root n : n ∈ subtree n.
Proof. destruct n; simpl. apply elem_of_cons; by left. Qed.

(** Whatever is left after removing [i] from a forest is not [i] and comes
    from an element of the forest. *)
Lemma removeForest_nodes_of (f : list Node) :
  Forall (λ n, ∀ i x, x ∈ subtree (removeFrom i n) →
            (nid x = nid n ∨ nid x ≠ i) ∧ ∃ y, y ∈ subtree n ∧ sameElement x y) f →
  ∀ i x, x ∈ forestNodes (removeForest i f) →
    nid x ≠ i ∧ ∃ y, y ∈ forestNodes f ∧ sameElement x y.
Proof.
  intros Hall i x Hx. unfold forestNodes, removeForest in Hx.
  apply elem_of_flat_map in Hx as (k' & Hk' & Hx).
  apply elem_of_flat_map in Hk' as (k & Hk & Hk').
  destruct (Nat.eqb (nid k) i) eqn:E; [by apply elem_of_nil in Hk'|].
  apply list_elem_of_singleton in Hk' as ->.
  apply Nat.eqb_neq in E.
  rewrite Forall_forall in Hall.
  destruct (Hall k Hk i x Hx) as [Hid (y & Hy & Hxy)].
  split; [destruct Hid; congruence|].
  exists y; split; [|done].
  apply elem_of_flat_map. eauto.
Qed.

Lemma removeFrom_nodes (n : Node) :
  ∀ i x, x ∈ subtree (removeFrom i n) →
    (nid x = nid n ∨ nid x ≠ i) ∧ ∃ y, y ∈ subtree n ∧ sameElement x y.
Proof.
  induction n as [j t a s kids IH] using Node_forest_ind.
  intros i x Hx. simpl in Hx. apply elem_of_cons in Hx as [-> | Hx].
  - split; [by left|].
    exists (mkNode j t a s kids). split; [apply subtree_root | done].
  - destruct (removeForest_nodes_of kids IH i x Hx) as [Hne (y & Hy & Hxy)].
    split; [by right|]. exists y. split; [|done].
    simpl. apply elem_of_cons; by right.
Qed.

Lemma removeForest_nodes (f : list Node) i x :
  x ∈ forestNodes (removeForest i f) →
  nid x ≠ i ∧ ∃ y, y ∈ forestNodes f ∧ sameElement x y.
Proof.
  apply removeForest_nodes_of, Forall_forall. intros n _. apply removeFrom_nodes.
Qed.

Lemma remove_nodes el d x :
  x ∈ docNodes (remove el d) →
  nid x ≠ nid el ∧ ∃ y, y ∈ docNodes d ∧ sameElement x y.
Proof.
  unfold docNodes, remove; simpl. intros Hx.
  apply elem_of_app in Hx as [Hx | Hx];
    apply removeForest_nodes in Hx as [Hne (y & Hy & Hxy)];
    (split; [done|]); exists y; (split; [|done]); apply elem_of_app; auto.
Qed.

Lemma sameElement_trans x y z : sameElement x y → sameElement y z → sameElement x z.
Proof. unfold sameElement. intuition congruence. Qed.

(** The loop [forEach(el => el.remove())] over any list of elements. *)
Lemma remove_all_nodes (els : list Node) : ∀ d x,
  x ∈ docNodes (fold_left (λ doc el, remove el doc) els d) →
  (∀ el, el ∈ els → nid x ≠ nid el) ∧ ∃ y, y ∈ docNodes d ∧ sameElement x y.
Proof.
  induction els as [|el els IH]; intros d x Hx; simpl in Hx.
  - split; [intros el Hel; by apply elem_of_nil in Hel|].
    exists x. by split.
  - destruct (IH _ _ Hx) as [Hnot (y & Hy & Hxy)].
    apply remove_nodes in Hy as [Hne (z & Hz & Hyz)].
    split.
    + intros el' Hel'. apply elem_of_cons in Hel' as [-> | Hel']; [|by apply Hnot].
      destruct Hxy as (Hid & _). congruence.
    + exists z. split; [done|]. by eapply sameElement_trans.
Qed.

(** Nothing the selector matches is left in the cleaned document. *)
Lemma cleanOldAssets_none_left d :
  querySelectorAll themeAssetSelector (cleanOldAssets d) = [].
Proof.
  apply elem_of_nil_inv. intros x Hx.
  unfold querySelectorAll in Hx. apply list_elem_of_filter in Hx as [Hsel Hx].
  apply remove_all_nodes in Hx as [Hnot (y & Hy & Hxy)].
  apply (Hnot y); [|by destruct Hxy].
  unfold querySelectorAll. apply list_elem_of_filter. split; [|done].
  by rewrite <- (sameElement_selector x y).
Qed.

Example cleanOldAssets_stale :
  cleanOldAssets staleDocument
  = mkDocument Complete
      [ mkNode 2 "link" [("rel", "stylesheet")] "" [] ]
      [ mkNode 3 "div" [] "" [ mkNode 5 "p" [] "Bienvenue" [] ];
        mkNode 6 "script" [] "opac()" [] ]
      7.
Proof. reflexivity. Qed.

Lemma cleanOldAssets_untagged d :
  querySelectorAll themeAssetSelector d = [] → cleanOldAssets d = d.
Proof. unfold cleanOldAssets. by intros ->. Qed.

(** C2: after [cleanOldAssets(doc)] no link or script element carrying a
    theme tag is left in [doc], whatever it held before; on a document
    without tagged elements the call changes nothing; and a second call
    in a row changes nothing more. *)
Theorem cleanOldAssets_removes_all_and_idempotent :
  (∀ d, querySelectorAll themeAssetSelector (cleanOldAssets d) = []) ∧
  (∀ d, querySelectorAll themeAssetSelector d = [] → cleanOldAssets d = d) ∧
  (∀ d, cleanOldAssets (cleanOldAssets d) = cleanOldAssets d).
Proof.
  split; [apply cleanOldAssets_none_left|].
  split; [apply cleanOldAssets_untagged|].
  intros d. apply cleanOldAssets_untagged, cleanOldAssets_none_left.
Qed.

End DomFacts.

(** ** Asset collection *)

Module CollectorFacts.
Import Collector Scenarios.

(** The four cases of the two tests on the asset type of [e]. *)
Ltac by_asset_type e :=
  destruct (String.eqb (assetType e) "css" || String.eqb (assetType e) "both"),
    (String.eqb (assetType e) "js" || String.eqb (assetType e) "both").

Section Facts.
Variable inputs : gmap string Input.
Variable window : gmap string JSVal.

Lemma collectExtra_files a entry :
  cssFiles (collectExtra inputs window a entry)
    = cssFiles a ++ extraUrls eo_css inputs [entry] ∧
  jsFiles (collectExtra inputs window a entry)
    = jsFiles a ++ extraUrls eo_js inputs [entry].
Proof.
  destruct entry as [k o]. unfold collectExtra, extraUrls, isIgnore; simpl.
  case_bool_decide; simpl; [by rewrite !app_nil_r|].
  destruct (extraActive (getById inputs k)); simpl; [|by rewrite !app_nil_r].
  destruct (truthy (eo_css o)), (truthy (eo_js o)),
    (truthy (value <$> getById inputs k)); simpl; by rewrite ?app_nil_r.
Qed.

Lemma collectExtras_files opts : ∀ a,
  cssFiles (fold_left (collectExtra inputs window) opts a)
    = cssFiles a ++ extraUrls eo_css inputs opts ∧
  jsFiles (fold_left (collectExtra inputs window) opts a)
    = jsFiles a ++ extraUrls eo_js inputs opts.
Proof.
  induction opts as [|entry opts IH]; intros a; simpl.
  - by rewrite !app_nil_r.
  - destruct (IH (collectExtra inputs window a entry)) as [-> ->].
    destruct (collectExtra_files a entry) as [-> ->].
    unfold extraUrls; simpl. by rewrite !app_nil_r, <- !app_assoc.
Qed.

Lemma collectElement_files th a entry :
  cssFiles (collectElement inputs window th a entry)
    = cssFiles a ++ elementCss inputs th entry.2 ∧
  jsFiles (collectElement inputs window th a entry)
    = jsFiles a ++ elementJs inputs th entry.2.
Proof.
  destruct entry as [name e]; simpl.
  unfold collectElement, elementCss, elementJs, contributes; simpl.
  destruct (isActive (getById inputs (setting e))); simpl;
    [|by rewrite !app_nil_r].
  destruct (truthy (file e)); simpl; [|by rewrite !app_nil_r].
  unfold ownCss, ownJs.
  destruct (extra_options e) as [opts|]; simpl.
  - match goal with |- context [fold_left _ opts ?x] =>
      destruct (collectExtras_files opts x) as [-> ->] end.
    by_asset_type e;
      simpl; by rewrite <- ?app_assoc.
  - by_asset_type e;
      simpl; by rewrite ?app_nil_r.
Qed.

Lemma collectElements_files th els : ∀ a,
  cssFiles (fold_left (collectElement inputs window th) els a)
    = cssFiles a ++ flat_map (λ entry, elementCss inputs th entry.2) els ∧
  jsFiles (fold_left (collectElement inputs window th) els a)
    = jsFiles a ++ flat_map (λ entry, elementJs inputs th entry.2) els.
Proof.
  induction els as [|entry els IH]; intros a; simpl.
  - by rewrite !app_nil_r.
  - destruct (IH (collectElement inputs window th a entry)) as [-> ->].
    destruct (collectElement_files th a entry) as [-> ->].
    by rewrite <- !app_assoc.
Qed.

Lemma collectExtra_keeps k a entry :
  onlyIgnored k [entry] → holdsGlobal window k a →
  holdsGlobal window k (collectExtra inputs window a entry).
Proof.
  destruct entry as [k' o]. intros Hign Ha.
  unfold collectExtra, holdsGlobal in *.
  destruct (decide (k' = k)) as [-> | Hne].
  - rewrite bool_decide_eq_true_2 by (apply Hign, list_elem_of_singleton; done).
    simpl. by rewrite lookup_insert_eq.
  - case_bool_decide; simpl; [by rewrite lookup_insert_ne|].
    destruct (extraActive (getById inputs k')); [|done].
    destruct (truthy (eo_css o)), (truthy (eo_js o)),
      (truthy (value <$> getById inputs k')); simpl;
      by rewrite ?lookup_insert_ne.
Qed.

Lemma onlyIgnored_cons k entry opts :
  onlyIgnored k (entry :: opts) → onlyIgnored k [entry] ∧ onlyIgnored k opts.
Proof.
  intros H. split; intros o Ho; apply H.
  - apply list_elem_of_singleton in Ho as <-. apply elem_of_cons; by left.
  - apply elem_of_cons; by right.
Qed.

Lemma collectExtras_keep k opts : ∀ a,
  onlyIgnored k opts → holdsGlobal window k a →
  holdsGlobal window k (fold_left (collectExtra inputs window) opts a).
Proof.
  induction opts as [|entry opts IH]; intros a Hign Ha; simpl; [done|].
  apply onlyIgnored_cons in Hign as [H1 H2].
  apply IH; [done|]. by apply collectExtra_keeps.
Qed.

Lemma collectExtras_set k o opts : ∀ a,
  (k, o) ∈ opts → onlyIgnored k opts →
  holdsGlobal window k (fold_left (collectExtra inputs window) opts a).
Proof.
  induction opts as [|entry opts IH]; intros a Hin Hign; simpl.
  - by apply elem_of_nil in Hin.
  - apply onlyIgnored_cons in Hign as Hsplit. destruct Hsplit as [H1 H2].
    apply elem_of_cons in Hin as [<- | Hin]; [|by apply IH].
    apply collectExtras_keep; [done|].
    unfold collectExtra, holdsGlobal.
    rewrite bool_decide_eq_true_2 by (apply H1, list_elem_of_singleton; done).
    simpl. by rewrite lookup_insert_eq.
Qed.

Lemma collectElement_keeps th k a entry :
  elementOnlyIgnores k entry.2 → holdsGlobal window k a →
  holdsGlobal window k (collectElement inputs window th a entry).
Proof.
  destruct entry as [name e]; simpl. unfold elementOnlyIgnores, collectElement; simpl.
  intros Hign Ha.
  destruct (negb (isActive (getById inputs (setting e))) || negb (truthy (file e)));
    [done|].
  assert (∀ a', jsOptions a' = jsOptions a → holdsGlobal window k a') as Hsame
    by (intros a' Ha'; unfold holdsGlobal; by rewrite Ha').
  destruct (extra_options e) as [opts|]; simpl in *.
  - apply collectExtras_keep; [done|]. apply Hsame.
    by_asset_type e; done.
  - apply Hsame.
    by_asset_type e; done.
Qed.

Lemma collectElement_sets th k o opts a name e :
  contributes inputs e = true → extra_options e = Some opts →
  (k, o) ∈ opts → onlyIgnored k opts →
  holdsGlobal window k (collectElement inputs window th a (name, e)).
Proof.
  unfold contributes, collectElement; simpl. intros Hc Hopts Hin Hign.
  apply andb_true_iff in Hc as [-> ->]. simpl. rewrite Hopts.
  by eapply collectExtras_set.
Qed.

Lemma collect_urls_files_of themeData th :
  cssFiles (collectThemeAssets inputs window themeData th)
    = flat_map (λ entry, elementCss inputs th entry.2)
               (default [] (elements themeData)) ∧
  jsFiles (collectThemeAssets inputs window themeData th)
    = flat_map (λ entry, elementJs inputs th entry.2)
               (default [] (elements themeData)).
Proof. unfold collectThemeAssets. apply collectElements_files. Qed.

Lemma collectElements_keep th k els : ∀ a,
  (∀ entry, entry ∈ els → elementOnlyIgnores k entry.2) → holdsGlobal window k a →
  holdsGlobal window k (fold_left (collectElement inputs window th) els a).
Proof.
  induction els as [|entry els IH]; intros a Hign Ha; simpl; [done|].
  apply IH.
  - intros entry' Hin. apply Hign. apply elem_of_cons; by right.
  - apply collectElement_keeps; [|done]. apply Hign. apply elem_of_cons; by left.
Qed.
End Facts.

Example collect_winter :
  collectThemeAssets winterInputs ∅ winterTheme "winter"
  = mkAssets [] [assetUrl "js" "winter" "snow.js"] ∅.
Proof. vm_compute. reflexivity. Qed.

(** C4, as stated, fails: the primary setting is a text input holding the
    empty string, which the claim counts as inactive, and the element's
    stylesheet is collected all the same. *)
Lemma collect_empty_text_input_contributes :
  spec_isActive (getById emptyTextInputs "bg_color") = false ∧
  cssFiles (collectThemeAssets emptyTextInputs ∅ colorTheme "winter")
  = [assetUrl "css" "winter" "bg.css"].
Proof. split; vm_compute; reflexivity. Qed.

(** C4, amended: the collected CSS and JS URLs are, element by element in
    the theme's order, those of the elements that declare a file and whose
    primary setting is active, where a checkbox is active when checked and
    any other input, or no input, is always active. *)
Theorem collect_urls_of_active_elements
    (inputs : gmap string Input) (window : gmap string JSVal)
    (themeData : ThemeData) (selectedTheme : string) :
  cssFiles (collectThemeAssets inputs window themeData selectedTheme)
    = flat_map (λ entry, elementCss inputs selectedTheme entry.2)
               (default [] (elements themeData)) ∧
  jsFiles (collectThemeAssets inputs window themeData selectedTheme)
    = flat_map (λ entry, elementJs inputs selectedTheme entry.2)
               (default [] (elements themeData)) ∧
  (∀ e, contributes inputs e = true ↔
        truthy (file e) = true ∧
        match getById inputs (setting e) with
        | Some i => itype i = "checkbox" → checked i = true
        | None => True
        end).
Proof.
  destruct (collect_urls_files_of inputs window themeData selectedTheme) as [Hc Hj].
  split; [exact Hc|]. split; [exact Hj|].
  intros e. unfold contributes, isActive.
  rewrite andb_true_iff.
  destruct (getById inputs (setting e)) as [i|]; [|tauto].
  destruct (String.eqb_spec (itype i) "checkbox") as [Heq|Hne]; tauto.
Qed.

(** C5, as stated, fails: the parent element is unchecked, and the ignore
    option under it never reaches [jsOptions]. *)
Lemma collect_ignore_skipped_when_parent_inactive :
  windowGet someWindow "api_namespace" = VStr "celebrations" ∧
  jsOptions (collectThemeAssets uncheckedInputs someWindow ignoreTheme "winter")
    !! "api_namespace" = None.
Proof. split; vm_compute; reflexivity. Qed.

(** C5, amended: when an element that declares a file and whose primary
    setting is active has an extra option of type ignore under [k], and
    every extra option the theme declares under [k] is of type ignore,
    [jsOptions[k]] ends as the value of the global [k], whatever the state
    of the input [k] or of any other auxiliary input. *)
Theorem collect_ignore_option_of_active_element
    (inputs : gmap string Input) (window : gmap string JSVal)
    (themeData : ThemeData) (selectedTheme : string)
    (name : string) (e : Element) (opts : list (string * ExtraOption))
    (k : string) (o : ExtraOption) :
  (name, e) ∈ default [] (elements themeData) →
  contributes inputs e = true →
  extra_options e = Some opts →
  (k, o) ∈ opts →
  eo_type o = Some "ignore" →
  (∀ entry, entry ∈ default [] (elements themeData) →
            elementOnlyIgnores k entry.2) →
  jsOptions (collectThemeAssets inputs window themeData selectedTheme) !! k
  = Some (windowGet window k).
Proof.
  intros Hin Hc Hopts Hk _ Hall. unfold collectThemeAssets.
  generalize (mkAssets [] [] ∅).
  induction (default [] (elements themeData)) as [|entry els IH]; intros a.
  - by apply elem_of_nil in Hin.
  - simpl. apply elem_of_cons in Hin as [<- | Hin].
    + apply collectElements_keep.
      * intros entry' Hin'. apply Hall. apply elem_of_cons; by right.
      * eapply collectElement_sets; eauto.
        specialize (Hall (name, e)). unfold elementOnlyIgnores in Hall.
        simpl in Hall. rewrite Hopts in Hall. apply Hall.
        apply elem_of_cons; by left.
    + apply IH; [done|].
      intros entry' Hin'. apply Hall. apply elem_of_cons; by right.
Qed.

Lemma collect_ignore_option_witness :
  jsOptions (collectThemeAssets checkedInputs someWindow ignoreTheme "winter")
    !! "api_namespace" = Some (windowGet someWindow "api_namespace").
Proof.
  apply (collect_ignore_option_of_active_element checkedInputs someWindow
           ignoreTheme "winter" "snow"
           (mkElement "toggle_snow" (Some "snow.js") (Some "js")
              (Some [("api_namespace", mkExtraOption (Some "ignore") None None)]))
           [("api_namespace", mkExtraOption (Some "ignore") None None)]
           "api_namespace" (mkExtraOption (Some "ignore") None None)).
  - simpl. apply elem_of_cons; by left.
  - vm_compute; reflexivity.
  - reflexivity.
  - apply elem_of_cons; by left.
  - reflexivity.
  - intros entry Hin. simpl in Hin.
    apply list_elem_of_singleton in Hin as ->.
    intros o' Ho'. simpl in Ho'.
    apply list_elem_of_singleton in Ho'. by inversion Ho'.
Defined.

(** C10: an element whose primary setting names no input at all is
    treated as active: if it declares a file, it goes past the guard of
    the loop and its CSS and JS URLs are collected, by its asset type,
    together with what its extra options bring. *)
Theorem collect_missing_input_is_active
    (inputs : gmap string Input) (window : gmap string JSVal)
    (themeData : ThemeData) (selectedTheme : string)
    (name : string) (e : Element) :
  (name, e) ∈ default [] (elements themeData) →
  getById inputs (setting e) = None →
  truthy (file e) = true →
  isActive (getById inputs (setting e)) = true ∧
  elementCss inputs selectedTheme e
    = ownCss selectedTheme e
      ++ extraUrls eo_css inputs (default [] (extra_options e)) ∧
  elementJs inputs selectedTheme e
    = ownJs selectedTheme e
      ++ extraUrls eo_js inputs (default [] (extra_options e)) ∧
  (∀ u, u ∈ ownCss selectedTheme e →
        u ∈ cssFiles (collectThemeAssets inputs window themeData selectedTheme)) ∧
  (∀ u, u ∈ ownJs selectedTheme e →
        u ∈ jsFiles (collectThemeAssets inputs window themeData selectedTheme)).
Proof.
  intros Hin Hnone Hfile.
  assert (contributes inputs e = true) as Hc
    by (unfold contributes; by rewrite Hnone, Hfile).
  assert (elementCss inputs selectedTheme e
          = ownCss selectedTheme e
            ++ extraUrls eo_css inputs (default [] (extra_options e))) as Hcss
    by (unfold elementCss; by rewrite Hc).
  assert (elementJs inputs selectedTheme e
          = ownJs selectedTheme e
            ++ extraUrls eo_js inputs (default [] (extra_options e))) as Hjs
    by (unfold elementJs; by rewrite Hc).
  destruct (collect_urls_files_of inputs window themeData selectedTheme) as [Hc' Hj'].
  split; [by rewrite Hnone|]. split; [done|]. split; [done|].
  split; intros u Hu.
  - rewrite Hc'. apply DomFacts.elem_of_flat_map. exists (name, e).
    split; [done|]. simpl. rewrite Hcss. apply elem_of_app; by left.
  - rewrite Hj'. apply DomFacts.elem_of_flat_map. exists (name, e).
    split; [done|]. simpl. rewrite Hjs. apply elem_of_app; by left.
Qed.

Lemma collect_missing_input_witness :
  isActive (getById (∅ : gmap string Input) "no_such_input") = true ∧
  assetUrl "css" "winter" "trail.js"
    ∈ cssFiles (collectThemeAssets ∅ ∅ orphanTheme "winter") ∧
  assetUrl "js" "winter" "trail.js"
    ∈ jsFiles (collectThemeAssets ∅ ∅ orphanTheme "winter").
Proof.
  destruct (collect_missing_input_is_active ∅ ∅ orphanTheme "winter" "trail"
              (mkElement "no_such_input" (Some "trail.js") None None))
    as (Ha & _ & _ & Hc & Hj).
  - simpl. apply elem_of_cons; by left.
  - reflexivity.
  - reflexivity.
  - split; [exact Ha|]. split.
    + apply Hc. vm_compute. apply elem_of_cons; by left.
    + apply Hj. vm_compute. apply elem_of_cons; by left.
Defined.

End CollectorFacts.

(** ** Script injection under any order of fetch completions *)

Module InjectorFacts.
Import Dom Injector Scenarios.

Lemma inlineScript_tagged d th code :
  themeAssetSelector (inlineScript d th code) = true ∧
  getAttribute "data-theme" (inlineScript d th code) = Some th ∧
  textContent (inlineScript d th code) = code.
Proof. done. Qed.

Lemma uniqueFiles_NoDup_from (l : list string) : ∀ seen,
  NoDup seen →
  NoDup (fold_left (λ seen x, if bool_decide (x ∈ seen) then seen else seen ++ [x])
                   l seen).
Proof.
  induction l as [|x l IH]; intros seen Hseen; simpl; [done|].
  apply IH. case_bool_decide; [done|].
  apply NoDup_app. split; [done|]. split; [|apply NoDup_singleton].
  intros y Hy Hy'. apply list_elem_of_singleton in Hy' as ->. done.
Qed.

Lemma uniqueFiles_NoDup l : NoDup (uniqueFiles l).
Proof. apply uniqueFiles_NoDup_from, NoDup_nil_2. Qed.

Lemma filter_other_id (src : string) (l : list string) :
  src ∉ l → filter (λ u, u ≠ src) l = l.
Proof.
  induction l as [|y l IH]; intros Hx; [done|].
  apply not_elem_of_cons in Hx as [Hne Hx].
  rewrite filter_cons.
  destruct (decide (y ≠ src)) as [_|Hn]; [|destruct Hn; congruence].
  f_equal. by apply IH.
Qed.

Lemma take_out (src : string) (l : list string) :
  NoDup l → src ∈ l → l ≡ₚ src :: filter (λ u, u ≠ src) l.
Proof.
  induction l as [|x l IH]; intros Hnd Hin; [by apply elem_of_nil in Hin|].
  apply NoDup_cons in Hnd as [Hx Hnd].
  rewrite filter_cons. destruct (decide (x ≠ src)) as [Hne | Heq].
  - apply elem_of_cons in Hin as [-> | Hin]; [done|].
    rewrite (IH Hnd Hin) at 1. apply perm_swap.
  - assert (x = src) as -> by (destruct (decide (x = src)); [done | contradiction]).
    by rewrite filter_other_id.
Qed.

Section Runs.
Variable JSON_stringify : gmap string JSVal → string.
Variable fetch : string → Settled Response.

Lemma loadPromise_world th src w :
  loadPromise fetch th src w =
  match fetchedCode fetch src with
  | Fulfilled code =>
      let s := inlineScript (doc w) th code in
      (mkWorld (appendToBody s (createElement "script" (doc w)).2)
         (trace w ++ Appended s ::
            (if isReady (doc w) then [Dispatched "DOMContentLoaded"] else [])),
       Fulfilled tt)
  | Rejected e => (mkWorld (doc w) (trace w ++ [ConsoleError e]), Fulfilled tt)
  end.
Proof.
  unfold loadPromise, fetchedCode, catchP, thenP, settledP.
  destruct (fetch src) as [res|e]; [|done].
  destruct (text res) as [code|e]; [|done].
  unfold injectInline, thenP, createScript, appendChildBody, dispatchEvent,
    inlineScript, isReady; simpl.
  destruct (readyState (doc w)); simpl; by rewrite <- ?app_assoc, ?app_nil_r.
Qed.

Section FromStart.
Variable d : Document.
Variable jsFiles : list string.
Variable selectedTheme : string.
Variable jsOptions : gmap string JSVal.

Local Abbreviation start :=
  (injectStart JSON_stringify d jsFiles selectedTheme jsOptions).

Local Abbreviation reached :=
  (Reached JSON_stringify fetch d jsFiles selectedTheme jsOptions).

Lemma reached_start : reached start [].
Proof.
  destruct (negb (String.eqb (generateOptionsScript JSON_stringify selectedTheme jsOptions) ""))
    eqn:Hopt;
    split; unfold start, injectStart; rewrite ?Hopt; simpl;
    rewrite ?app_nil_r; try done;
    first [ apply uniqueFiles_NoDup
          | by destruct d as [[] ? ? ?]
          | by repeat constructor ].
Qed.

Lemma reached_step st done src :
  reached st done → src ∈ pending st →
  reached (settle fetch selectedTheme src st) (done ++ [src]).
Proof.
  intros [Hperm Hnd Htr Hset Hready Hbody Htag] Hin.
  unfold settle. rewrite loadPromise_world.
  unfold expected in *.
  destruct (fetchedCode fetch src) as [code|e] eqn:Hcode; simpl.
  - split; simpl.
    + rewrite <- Hperm, <- app_assoc. f_equiv. simpl.
      symmetry. by apply take_out.
    + by apply NoDup_filter.
    + rewrite fmap_app, Htr, flat_map_app, <- app_assoc. f_equal.
      simpl. unfold expected. rewrite Hcode, Hready, app_nil_r.
      by destruct (isReady d).
    + by rewrite Hset, fmap_app.
    + rewrite <- Hready. by destruct (doc (world st)) as [[] ? ? ?].
    + unfold appendedNodes in *. rewrite omap_app, Hbody, <- app_assoc.
      f_equal. by destruct (isReady (doc (world st))).
    + unfold appendedNodes in *. rewrite omap_app. apply Forall_app.
      split; [done|].
      destruct (isReady (doc (world st))); simpl; by repeat constructor.
  - split; simpl.
    + rewrite <- Hperm, <- app_assoc. f_equiv. simpl.
      symmetry. by apply take_out.
    + by apply NoDup_filter.
    + rewrite fmap_app, Htr, flat_map_app, <- app_assoc. f_equal.
      simpl. unfold expected. by rewrite Hcode.
    + by rewrite Hset, fmap_app.
    + done.
    + unfold appendedNodes in *. by rewrite omap_app, app_nil_r.
    + unfold appendedNodes in *. by rewrite omap_app, app_nil_r.
Qed.

Lemma reached_run st :
  rtc (step fetch selectedTheme) start st → ∃ done, reached st done.
Proof.
  apply (rtc_ind_r (λ st, ∃ done, reached st done) start).
  - exists []. apply reached_start.
  - intros st1 st2 _ Hstep [done Hdone]. destruct Hstep as [st1 src Hin].
    exists (done ++ [src]). by apply reached_step.
Qed.
End FromStart.

Lemma settleInOrder_reached d jsFiles th opts order : ∀ st done,
  Reached JSON_stringify fetch d jsFiles th opts st done →
  NoDup order → (∀ src, src ∈ order → src ∈ pending st) →
  Reached JSON_stringify fetch d jsFiles th opts
    (settleInOrder fetch th order st) (done ++ order).
Proof.
  induction order as [|src order IH]; intros st done Hst Hnd Hin; simpl.
  - by rewrite app_nil_r.
  - apply NoDup_cons in Hnd as [Hsrc Hnd].
    rewrite bool_decide_eq_true_2 by (apply Hin, elem_of_cons; by left).
    rewrite (cons_middle src done order), app_assoc.
    apply IH; [by apply reached_step; [|apply Hin, elem_of_cons; left] | done |].
    intros u Hu. unfold settle. destruct (loadPromise fetch th src (world st)).
    simpl. apply list_elem_of_filter. split; [congruence|].
    apply Hin, elem_of_cons. by right.
Qed.

Lemma settleInOrder_run th order : ∀ st,
  rtc (step fetch th) st (settleInOrder fetch th order st).
Proof.
  induction order as [|src order IH]; intros st; simpl; [done|].
  case_bool_decide; [|apply IH].
  eapply rtc_l; [by constructor | apply IH].
Qed.
End Runs.



Lemma documentEvents_observed t :
  documentEvents t = withoutErrors (observe <$> t).
Proof.
  induction t as [|[n|ev|e] t IH]; [done|..]; simpl; try f_equal; exact IH.
Qed.

Lemma expected_scripts fetch ready order :
  scriptTexts (flat_map (expected fetch ready) order) = succeeded fetch order.
Proof.
  induction order as [|src order IH]; [done|].
  simpl. unfold scriptTexts, succeeded in *. rewrite omap_app, IH.
  unfold expected. simpl. destruct (fetchedCode fetch src); [|done].
  by destruct ready.
Qed.


Lemma expected_document fetch order :
  withoutErrors (flat_map (expected fetch true) order)
  = flat_map (λ code, [ScriptAppended code; SignalDispatched "DOMContentLoaded"])
             (succeeded fetch order).
Proof.
  induction order as [|src order IH]; [done|].
  simpl. unfold withoutErrors, succeeded in *. rewrite omap_app, IH.
  unfold expected. simpl. by destruct (fetchedCode fetch src).
Qed.



Lemma firstRejection_fulfilled (done : list string) :
  firstRejection ((λ _, Fulfilled tt) <$> done) = None.
Proof. by induction done. Qed.

(** Whatever the order in which the fetches complete, the run reaches its
    end and the scripts are appended in that order. *)
Lemma injectJS_finishes_in_any_order JSON_stringify fetch d jsFiles th opts order :
  order ≡ₚ uniqueFiles jsFiles →
  pending (settleInOrder fetch th order
             (injectStart JSON_stringify d jsFiles th opts)) = [] ∧
  promiseAll (settleInOrder fetch th order
                (injectStart JSON_stringify d jsFiles th opts))
  = Some (Fulfilled tt) ∧
  scriptTexts (observe <$> trace (world
      (settleInOrder fetch th order (injectStart JSON_stringify d jsFiles th opts))))
  = scriptTexts (observe <$> trace (world
      (injectStart JSON_stringify d jsFiles th opts)))
    ++ succeeded fetch order.
Proof.
  intros Hperm.
  destruct (settleInOrder_reached JSON_stringify fetch d jsFiles th opts order
              (injectStart JSON_stringify d jsFiles th opts) [])
    as [Hp _ Htr Hset _ _ _].
  - apply reached_start.
  - rewrite Hperm. apply uniqueFiles_NoDup.
  - intros src Hsrc. rewrite Hperm in Hsrc.
    unfold injectStart. by destruct (negb _).
  - simpl in Hp, Htr, Hset.
    assert (pending (settleInOrder fetch th order
                       (injectStart JSON_stringify d jsFiles th opts)) = []) as Hnil.
    { apply Permutation_length in Hp. apply Permutation_length in Hperm.
      rewrite length_app in Hp. apply length_zero_iff_nil. lia. }
    split; [done|]. split.
    + unfold promiseAll. rewrite Hset, Hnil.
      by rewrite (firstRejection_fulfilled order).
    + rewrite Htr. unfold scriptTexts at 1. rewrite omap_app.
      fold (scriptTexts (flat_map (expected fetch (isReady d)) order)).
      by rewrite expected_scripts.
Qed.

(** C1: on the list [a.js, b.js], when the fetch of b.js completes before
    that of a.js, the script of b.js is appended first: the appended
    scripts follow the order of completion, not the order of the list. *)
Theorem injectJS_appends_in_completion_order :
  let run := injectJSFilesAsync noStringify bothFetched ["b.js"; "a.js"]
               readyDocument ["a.js"; "b.js"] "winter" ∅ in
  rtc (step bothFetched "winter")
      (injectStart noStringify readyDocument ["a.js"; "b.js"] "winter" ∅) run.1 ∧
  run.2 = Some (Fulfilled tt) ∧
  uniqueFiles ["a.js"; "b.js"] = ["a.js"; "b.js"] ∧
  succeeded bothFetched (uniqueFiles ["a.js"; "b.js"]) = ["A"; "B"] ∧
  textContent <$> body (doc (world run.1)) = ["B"; "A"].
Proof.
  split; [apply settleInOrder_run|].
  repeat split; vm_compute; reflexivity.
Qed.




Example injectJS_first_fails :
  let run := injectJSFilesAsync noStringify firstFails ["a.js"; "b.js"]
               readyDocument ["a.js"; "b.js"] "winter" ∅ in
  textContent <$> body (doc (world run.1)) = ["B"] ∧
  loggedErrors (trace (world run.1)) = ["Failed to fetch"] ∧
  run.2 = Some (Fulfilled tt).
Proof. repeat split; vm_compute; reflexivity. Qed.


(** C9, as stated, fails: with two scripts fetched, the signal dispatched
    after the first one precedes the append of the second one. *)
Lemma injectJS_script_appended_after_signal :
  let t := trace (world (injectJSFilesAsync noStringify bothFetched
                           ["a.js"; "b.js"] readyDocument ["a.js"; "b.js"]
                           "winter" ∅).1) in
  observe <$> t
  = [ScriptAppended "A"; SignalDispatched "DOMContentLoaded";
     ScriptAppended "B"; SignalDispatched "DOMContentLoaded"] ∧
  ¬ appendsPrecedeSignal t.
Proof.
  split; [vm_compute; reflexivity|].
  intros Hclaim.
  specialize (Hclaim 1 2 "DOMContentLoaded"
                (inlineScript (mkDocument Complete [] [] 1) "winter" "B")).
  assert (2 < 1) as Hlt; [|lia].
  apply Hclaim; vm_compute; reflexivity.
Qed.

(** C9, amended: on a document whose [readyState] is complete or
    interactive, at every point of every run the effects on the document
    are those of the synchronous start followed, for each script fetched
    so far in completion order, by its append and then at once a dispatch
    of DOMContentLoaded: the signal follows each appended script, the last
    one included, rather than all of them at once. *)
Theorem injectJS_signal_follows_each_script
    (JSON_stringify : gmap string JSVal → string)
    (fetch : string → Settled Response)
    (d : Document) (jsFiles : list string) (selectedTheme : string)
    (jsOptions : gmap string JSVal) (st : Injection) :
  isReady d = true →
  rtc (step fetch selectedTheme)
      (injectStart JSON_stringify d jsFiles selectedTheme jsOptions) st →
  ∃ done, done ++ pending st ≡ₚ uniqueFiles jsFiles ∧
    documentEvents (trace (world st))
    = documentEvents (trace (world
        (injectStart JSON_stringify d jsFiles selectedTheme jsOptions)))
      ++ flat_map (λ code, [ScriptAppended code;
                            SignalDispatched "DOMContentLoaded"])
                  (succeeded fetch done).
Proof.
  intros Hready Hrun.
  destruct (reached_run JSON_stringify fetch d jsFiles selectedTheme jsOptions st Hrun)
    as [done [Hperm _ Htr _ _ _ _]].
  exists done. split; [done|].
  rewrite !documentEvents_observed, Htr, Hready.
  unfold withoutErrors at 1. rewrite omap_app.
  fold (withoutErrors (flat_map (expected fetch true) done)).
  by rewrite expected_document.
Qed.

Lemma injectJS_signal_follows_each_script_witness :
  ∃ done,
    done ++ pending (injectJSFilesAsync noStringify bothFetched ["b.js"; "a.js"]
                       readyDocument ["a.js"; "b.js"] "winter" ∅).1
      ≡ₚ uniqueFiles ["a.js"; "b.js"] ∧
    documentEvents (trace (world
      (injectJSFilesAsync noStringify bothFetched ["b.js"; "a.js"]
         readyDocument ["a.js"; "b.js"] "winter" ∅).1))
    = documentEvents (trace (world
        (injectStart noStringify readyDocument ["a.js"; "b.js"] "winter" ∅)))
      ++ flat_map (λ code, [ScriptAppended code;
                            SignalDispatched "DOMContentLoaded"])
                  (succeeded bothFetched done).
Proof.
  apply (injectJS_signal_follows_each_script noStringify bothFetched readyDocument
           ["a.js"; "b.js"] "winter" ∅).
  - reflexivity.
  - apply settleInOrder_run.
Defined.

End InjectorFacts.

(** ** Layout and refresh of the preview *)

Module PreviewFacts.
Import Dom Collector Injector Preview Scenarios.

Lemma iframe_container p fr :
  iframe p = Some fr → ∃ c, iframeContainer p = Some c ∧ frame c = Some fr.
Proof.
  unfold iframe. destruct (iframeContainer p) as [c|]; [|done].
  simpl. eauto.
Qed.

(** C6, as stated, fails: once the screen region is not rendered its
    rectangle is all zeros, the quotient height / scale is no number, the
    assignment of the height is dropped, and the height the preview is
    left with is the one it had: 800 after an earlier layout, none
    without one.  It is not the quotient, and it is not a function of the
    width and the height of the region and of the base width. *)
Lemma positionIframe_collapsed_region_keeps_height :
  screens (collapse desktopPage) !! ".screenOrdi .content" = Some (mkRect 0 0 0 0) ∧
  screens (collapse (positionIframe desktopPage)) !! ".screenOrdi .content"
  = Some (mkRect 0 0 0 0) ∧
  layoutOf 0 0 1300 = (0%float, 1300%float, nan) ∧
  (height ∘ style <$> iframe (positionIframe (collapse (positionIframe desktopPage))))
  = Some (Some 800%float) ∧
  (height ∘ style <$> iframe (positionIframe (collapse desktopPage)))
  = Some None ∧
  (transform ∘ style <$> iframe (positionIframe (collapse desktopPage)))
  = Some (Some (TranslateScale 0 0 0)) ∧
  (width ∘ style <$> iframe (positionIframe (collapse desktopPage)))
  = Some (Some 1300%float).
Proof. repeat split; vm_compute; reflexivity. Qed.

(** C6, amended: once the guards of [positionIframe] pass, the scale
    written is the rendered width of the screen region over the base
    width of the current profile and the preview gets the base width as
    its width; it gets the rendered height over the scale as its height
    when that quotient is a length (a finite number, not negative), and
    keeps the height it had otherwise.  The three numbers computed are
    the function [layoutOf] of the width, the height and the base width.
    The loading overlay gets the transform and the width of the preview,
    and its height under the same condition: whenever the height is
    written, the overlay has exactly the transform, width and height of
    the preview. *)
Theorem positionIframe_layout
    (p : Page) (fr : Iframe) (ov : Style) (config : DeviceConfig) (rect : Rect) :
  iframe p = Some fr →
  overlayElement p = Some ov →
  isInitialized p = true →
  deviceConfig (currentDevice p) = Some config →
  screens p !! screen config = Some rect →
  ∃ fr' ov' scale,
    iframe (positionIframe p) = Some fr' ∧
    overlayElement (positionIframe p) = Some ov' ∧
    scale = (r_width rect / baseWidth config)%float ∧
    transform (style fr')
      = Some (TranslateScale (r_left rect) (r_top rect) scale) ∧
    width (style fr') = Some (baseWidth config) ∧
    height (style fr')
      = (if validLength (r_height rect / scale)
         then Some (r_height rect / scale)%float else height (style fr)) ∧
    (scale, baseWidth config, (r_height rect / scale)%float)
      = layoutOf (r_width rect) (r_height rect) (baseWidth config) ∧
    transform ov' = transform (style fr') ∧
    width ov' = width (style fr') ∧
    height ov'
      = (if validLength (r_height rect / scale)
         then Some (r_height rect / scale)%float else height ov) ∧
    (validLength (r_height rect / scale) = true →
     height (style fr') = Some (r_height rect / scale)%float ∧
     height ov' = height (style fr')).
Proof.
  intros Hfr Hov Hinit Hcfg Hrect.
  unfold positionIframe. rewrite Hfr, Hov, Hinit, Hcfg, Hrect. simpl.
  apply iframe_container in Hfr as (c & Hc & Hframe).
  unfold iframe, overlayElement, setOverlay, setFrame, setContainerDisplay,
    setContainer; simpl.
  rewrite Hc. simpl.
  eexists _, _, _. do 10 (split; [reflexivity|]).
  intros Hvalid. simpl. by rewrite Hvalid.
Qed.

Lemma positionIframe_layout_witness :
  ∃ fr' ov' scale,
    iframe (positionIframe desktopPage) = Some fr' ∧
    overlayElement (positionIframe desktopPage) = Some ov' ∧
    scale = 0.5%float ∧
    transform (style fr') = Some (TranslateScale 100 50 scale) ∧
    width (style fr') = Some 1300%float ∧
    height (style fr') = Some 800%float ∧
    transform ov' = transform (style fr') ∧
    width ov' = width (style fr') ∧
    height ov' = height (style fr').
Proof.
  destruct (positionIframe_layout desktopPage
              (mkIframe opacPreview true noStyle None (Accessible readyDocument))
              (setDisplay "none" noStyle)
              (mkDeviceConfig 1300 ".monitor-preview" ".screenOrdi .content")
              (mkRect 100 50 650 400))
    as (fr' & ov' & scale & H1 & H2 & Hs & H3 & H4 & _ & _ & H6 & H7 & _ & Hvalid);
    try (vm_compute; reflexivity).
  subst scale. destruct Hvalid as [H5 H8]; [vm_compute; reflexivity|].
  exists fr', ov', 0.5%float. repeat split; assumption.
Defined.

(** C7, as stated, fails: with the phone screen region 325 px wide and
    650 px tall the scale written is 325 / 500, not 0.25, and the height
    is 1000, not 2600 (0.25 and 2600 are what the base width 1300 of the
    desktop would give). *)
Lemma switch_to_phone_scale_is_not_a_quarter :
  currentDevice phonePage = "tel" ∧
  (style <$> iframe phonePage)
  = Some (mkStyle None None None
            (Some (TranslateScale 40 20 scale_325_500)) (Some 500%float)
            (Some 1000%float)) ∧
  PrimFloat.eqb scale_325_500 0.25 = false ∧
  PrimFloat.eqb 1000 2600 = false ∧
  layoutOf 325 650 1300 = (0.25%float, 1300%float, 2600%float).
Proof. repeat split; vm_compute; reflexivity. Qed.

Section Stepping.
Variable chr : gmap string string.
Variable scr : gmap string Rect.
Variables b1 b2 : option Button.
Variable inp : gmap string Input.
Variable win : gmap string JSVal.

Local Abbreviation page cd fr ov dev init done queued warn :=
(mkPage (Some (mkContainer cd (Some fr) ov)) dev init done queued
        chr scr b1 b2 inp win warn).

Lemma showLoadingOverlay_page cd fr ov dev init done queued warn :
showLoadingOverlay (page cd fr ov dev init done queued warn)
= page cd fr (Some (shownStyle ov)) dev init done queued warn.
Proof. by destruct ov. Qed.

Lemma hideLoadingOverlay_page cd fr ov dev init done queued warn :
hideLoadingOverlay (page cd fr (Some ov) dev init done queued warn)
= page cd fr (Some (hiddenStyle ov)) dev init done queued warn.
Proof. done. Qed.

Lemma injectDisableInteractions_page cd s i st o c ov dev init done queued warn :
injectDisableInteractions
  (page cd (mkIframe s i st o c) ov dev init done queued warn)
= page cd (mkIframe s i st o (afterDisable c)) ov dev init done queued
       (warnedBy c warn).
Proof. by destruct c. Qed.

Lemma positionIframe_page cd s i st o c ov dev done queued warn config rect :
deviceConfig dev = Some config →
scr !! screen config = Some rect →
positionIframe (page cd (mkIframe s i st o c) (Some ov) dev true done queued warn)
= page (Some "block")
       (mkIframe s i
          (setBox (TranslateScale (r_left rect) (r_top rect)
                     (r_width rect / baseWidth config)%float)
                  (baseWidth config)
                  (r_height rect / (r_width rect / baseWidth config))%float st)
          o c)
       (Some (setBox (TranslateScale (r_left rect) (r_top rect)
                        (r_width rect / baseWidth config)%float)
                     (baseWidth config)
                     (r_height rect / (r_width rect / baseWidth config))%float ov))
       dev true done queued warn.
Proof.
intros Hcfg Hrect. unfold positionIframe.
change (iframe (page cd (mkIframe s i st o c) (Some ov) dev true done queued warn))
  with (Some (mkIframe s i st o c)).
change (overlayElement (page cd (mkIframe s i st o c) (Some ov) dev true done queued warn))
  with (Some ov).
cbn [isInitialized currentDevice screens negb].
rewrite Hcfg, Hrect. reflexivity.
Qed.

Lemma switchToDevice_page deviceKey target cd s i st o c ov dev init done queued warn :
deviceConfig deviceKey = Some target →
switchToDevice deviceKey
  (page cd (mkIframe s i st o c) ov dev init done queued warn)
= mkPage (Some (mkContainer cd (Some (mkIframe s i st (Some SwitchOnload) c))
                  (Some (shownStyle ov))))
    deviceKey init done queued
    (alter (λ _, "block") (container target)
       (fold_left (λ m kv, alter (λ _, "none") (container kv.2) m)
                  DEVICE_CONFIG chr))
    scr b1 b2 inp win warn.
Proof. intros Hcfg. unfold switchToDevice. rewrite Hcfg. by destruct ov. Qed.

Lemma createdLoadListener_page cd s i st o c ov dev init done queued warn :
createdLoadListener
  (page cd (mkIframe s i st o c) ov dev init done queued warn)
= page cd (mkIframe s i st o (afterDisable c))
       (Some (hiddenStyle (shownStyle ov))) dev true true
       (if done then queued else true) (warnedBy c warn).
Proof.
unfold createdLoadListener. rewrite showLoadingOverlay_page.
change (setInitialized true
          (page cd (mkIframe s i st o c) (Some (shownStyle ov)) dev init done queued warn))
  with (page cd (mkIframe s i st o c) (Some (shownStyle ov)) dev true done queued warn).
rewrite injectDisableInteractions_page.
cbn [initialPreviewDone]. by destruct done.
Qed.

Lemma switchOnload_page cd s i st o c ov dev init done queued warn config rect :
deviceConfig dev = Some config →
scr !! screen config = Some rect →
switchOnload (page cd (mkIframe s i st o c) (Some ov) dev init done queued warn)
= page (Some "block")
       (mkIframe s i
          (setBox (TranslateScale (r_left rect) (r_top rect)
                     (r_width rect / baseWidth config)%float)
                  (baseWidth config)
                  (r_height rect / (r_width rect / baseWidth config))%float st)
          o (afterDisable c))
       (Some (hiddenStyle
                (setBox (TranslateScale (r_left rect) (r_top rect)
                           (r_width rect / baseWidth config)%float)
                        (baseWidth config)
                        (r_height rect / (r_width rect / baseWidth config))%float ov)))
       dev true done queued (warnedBy c warn).
Proof.
intros Hcfg Hrect. unfold switchOnload.
change (setInitialized true
          (page cd (mkIframe s i st o c) (Some ov) dev init done queued warn))
  with (page cd (mkIframe s i st o c) (Some ov) dev true done queued warn).
rewrite injectDisableInteractions_page.
rewrite (positionIframe_page _ _ _ _ _ _ _ _ _ _ _ config rect Hcfg Hrect).
by rewrite hideLoadingOverlay_page.
Qed.
End Stepping.

Lemma deviceConfig_tel :
  deviceConfig "tel" = Some (mkDeviceConfig 500 ".iphone" ".iphone .screenMobile").
Proof. reflexivity. Qed.

(** C7, amended: after the switch to the phone and the load of the frame,
    with the phone screen region 325 px wide and 650 px tall, the layout
    has scale 325 / 500 (the double nearest to 0.65), preview width 500
    (the base width of the phone profile) and preview height 1000. *)
Theorem switch_to_phone_layout
    (p : Page) (fr : Iframe) (loaded : FrameDoc) (rect : Rect) :
  iframe p = Some fr →
  screens p !! ".iphone .screenMobile" = Some rect →
  r_width rect = 325%float →
  r_height rect = 650%float →
  let p' := iframeLoadEvent loaded (switchToDevice "tel" p) in
  currentDevice p' = "tel" ∧
  ∃ fr',
    iframe p' = Some fr' ∧
    transform (style fr')
      = Some (TranslateScale (r_left rect) (r_top rect) scale_325_500) ∧
    width (style fr') = Some 500%float ∧
    height (style fr') = Some 1000%float.
Proof.
  intros Hfr Hrect Hw Hh.
  apply iframe_container in Hfr as (c & Hc & Hframe).
  destruct p as [oc dev init done queued chr scr b1 b2 inp win warn].
  simpl in Hc, Hrect. subst oc.
  destruct c as [cd ofr oov]. simpl in Hframe. subst ofr.
  destruct fr as [s inDoc st onl cont].
  erewrite switchToDevice_page by exact deviceConfig_tel.
  unfold iframeLoadEvent.
  match goal with |- context [iframe ?q] =>
    change (iframe q) with (Some (mkIframe s inDoc st (Some SwitchOnload) cont)) end.
  cbn [src inDocument style onload].
  match goal with |- context [setFrame ?f ?q] =>
    change (setFrame f q)
      with (mkPage (Some (mkContainer cd (Some f) (Some (shownStyle oov))))
              "tel" init done queued (chrome q) scr b1 b2 inp win warn) end.
  rewrite createdLoadListener_page.
  erewrite switchOnload_page by first [exact deviceConfig_tel | exact Hrect].
  split; [reflexivity|]. eexists. split; [reflexivity|].
  cbn [style transform width height setBox baseWidth]. rewrite Hw, Hh.
  repeat split.
Qed.

Lemma switch_to_phone_layout_witness :
  currentDevice phonePage = "tel" ∧
  ∃ fr',
    iframe phonePage = Some fr' ∧
    transform (style fr') = Some (TranslateScale 40 20 scale_325_500) ∧
    width (style fr') = Some 500%float ∧
    height (style fr') = Some 1000%float.
Proof.
  apply (switch_to_phone_layout desktopPage
           (mkIframe opacPreview true noStyle None (Accessible readyDocument))
           (Accessible readyDocument) (mkRect 40 20 325 650));
    vm_compute; reflexivity.
Defined.

(** When the refresh goes through, the overlay ends hidden and the two
    triggers enabled. *)
Example updatePreview_completes :
  (refresh (Accessible readyDocument) desktopPage).2 = Some (Fulfilled tt) ∧
  overlayDisplay (refresh (Accessible readyDocument) desktopPage).1 = Some "none" ∧
  buttonsDisabled (refresh (Accessible readyDocument) desktopPage).1
  = (Some false, Some false).
Proof. repeat split; vm_compute; reflexivity. Qed.

(** C3: what [updatePreview] leaves when it gives up.  Without a preview
    frame it returns with the overlay still shown and both triggers
    disabled; when the frame has no document it hides the overlay and
    leaves both triggers disabled; when the document of the frame may not
    be read its promise is rejected and both triggers stay disabled (the
    overlay is hidden by the load listener of the frame only). *)
Theorem updatePreview_abort_paths :
  ((refresh (Accessible readyDocument) barePage).2 = Some (Fulfilled tt) ∧
   overlayDisplay (refresh (Accessible readyDocument) barePage).1 = Some "flex" ∧
   buttonsDisabled (refresh (Accessible readyDocument) barePage).1
   = (Some true, Some true)) ∧
  ((refresh NoDocument desktopPage).2 = Some (Fulfilled tt) ∧
   overlayDisplay (refresh NoDocument desktopPage).1 = Some "none" ∧
   buttonsDisabled (refresh NoDocument desktopPage).1 = (Some true, Some true)) ∧
  ((refresh (Inaccessible "SecurityError") desktopPage).2
   = Some (Rejected "SecurityError") ∧
   overlayDisplay (refresh (Inaccessible "SecurityError") desktopPage).1
   = Some "none" ∧
   buttonsDisabled (refresh (Inaccessible "SecurityError") desktopPage).1
   = (Some true, Some true)).
Proof. repeat split; vm_compute; reflexivity. Qed.

End PreviewFacts.

(** ** Stylesheets, and what a refresh leaves behind *)

Module InjectedFacts.
Import Dom Injector Injected.

Lemma linksFrom_cons a th href hrefs :
  linksFrom a th (href :: hrefs) = cssLink a href th :: linksFrom (S a) th hrefs.
Proof.
  unfold linksFrom. rewrite imap_cons, Nat.add_0_r. f_equal.
  apply imap_ext. intros k x _. simpl. by rewrite Nat.add_succ_r.
Qed.

Lemma injectCSSFiles_step d href hrefs th :
  injectCSSFiles d (href :: hrefs) th
  = injectCSSFiles
      (mkDocument (readyState d) (head d ++ [cssLink (nextNid d) href th])
                  (body d) (S (nextNid d)))
      hrefs th.
Proof. reflexivity. Qed.

(** X1: [injectCSSFiles] appends to the head one stylesheet link per URL,
    in the order of the list, each tagged with the theme and with an
    identity of its own, and touches neither what the head held nor the
    body. *)
Theorem injectCSSFiles_appends_links_in_order
    (cssFiles : list string) (selectedTheme : string) (d : Document) :
  injectCSSFiles d cssFiles selectedTheme
  = mkDocument (readyState d)
      (head d ++ linksFrom (nextNid d) selectedTheme cssFiles)
      (body d) (nextNid d + length cssFiles) ∧
  getAttribute "href" <$> linksFrom (nextNid d) selectedTheme cssFiles
  = Some <$> cssFiles ∧
  Forall (λ n, tagName n = "link" ∧
               getAttribute "rel" n = Some "stylesheet" ∧
               getAttribute "data-theme" n = Some selectedTheme)
         (linksFrom (nextNid d) selectedTheme cssFiles).
Proof.
  split; [|split].
  - revert d. induction cssFiles as [|href hrefs IH]; intros d.
    + destruct d as [rs h b n]. unfold injectCSSFiles. simpl.
      by rewrite app_nil_r, Nat.add_0_r.
    + rewrite injectCSSFiles_step, IH. cbn [readyState head body nextNid length].
      rewrite linksFrom_cons, <- app_assoc, Nat.add_succ_r. done.
  - generalize (nextNid d). induction cssFiles as [|href hrefs IH]; intros a; [done|].
    rewrite linksFrom_cons, !fmap_cons, IH. done.
  - generalize (nextNid d). induction cssFiles as [|href hrefs IH]; intros a.
    + constructor.
    + rewrite linksFrom_cons. constructor; [done | apply IH].
Qed.

Lemma injectCSSFiles_links cssFiles th d :
  injectCSSFiles d cssFiles th
  = mkDocument (readyState d) (head d ++ linksFrom (nextNid d) th cssFiles)
      (body d) (nextNid d + length cssFiles).
Proof.
  revert d. induction cssFiles as [|href hrefs IH]; intros d.
  - destruct d as [rs h b n]. unfold injectCSSFiles. simpl.
    by rewrite app_nil_r, Nat.add_0_r.
  - rewrite injectCSSFiles_step, IH. cbn [readyState head body nextNid length].
    rewrite linksFrom_cons, <- app_assoc, Nat.add_succ_r. done.
Qed.

Lemma removeForest_absent_of (f : list Node) i :
  Forall (λ n, (∀ x, x ∈ subtree n → nid x ≠ i) → removeFrom i n = n) f →
  (∀ x, x ∈ forestNodes f → nid x ≠ i) → removeForest i f = f.
Proof.
  induction 1 as [|n f Hn _ IH]; intros Habs; [done|].
  unfold removeForest in *. simpl.
  assert (nid n ≠ i) as Hne.
  { apply Habs. unfold forestNodes. simpl. apply elem_of_app. left.
    apply DomFacts.subtree_root. }
  apply Nat.eqb_neq in Hne. rewrite Hne. simpl. f_equal.
  - apply Hn. intros x Hx. apply Habs. unfold forestNodes. simpl.
    apply elem_of_app. by left.
  - apply IH. intros x Hx. apply Habs. unfold forestNodes. simpl.
    apply elem_of_app. by right.
Qed.

Lemma removeFrom_absent (n : Node) i :
  (∀ x, x ∈ subtree n → nid x ≠ i) → removeFrom i n = n.
Proof.
  induction n as [j t a s kids IH] using Node_forest_ind. intros Habs.
  simpl. f_equal.
  apply (removeForest_absent_of kids i IH).
  intros x Hx. apply Habs. simpl. apply elem_of_cons. by right.
Qed.

Lemma removeForest_absent (f : list Node) i :
  (∀ x, x ∈ forestNodes f → nid x ≠ i) → removeForest i f = f.
Proof.
  apply removeForest_absent_of, Forall_forall. intros n _. apply removeFrom_absent.
Qed.

Lemma removeForest_app i f g :
  removeForest i (f ++ g) = removeForest i f ++ removeForest i g.
Proof. unfold removeForest. apply flat_map_app. Qed.

Lemma forestNodes_app f g : forestNodes (f ++ g) = forestNodes f ++ forestNodes g.
Proof. unfold forestNodes. apply flat_map_app. Qed.

Lemma forestNodes_cons n f : forestNodes (n :: f) = subtree n ++ forestNodes f.
Proof. done. Qed.

(** The links are leaves, one node each, with the identities given. *)
Lemma links_nodes th hrefs : ∀ a,
  forestNodes (linksFrom a th hrefs) = linksFrom a th hrefs.
Proof.
  induction hrefs as [|href hrefs IH]; intros a; [done|].
  rewrite linksFrom_cons, forestNodes_cons, IH. done.
Qed.

Lemma links_ids th hrefs : ∀ a x,
  x ∈ linksFrom a th hrefs →
  (a ≤ nid x)%nat ∧
  themeAssetSelector x = true ∧ getAttribute "data-theme" x = Some th.
Proof.
  induction hrefs as [|href hrefs IH]; intros a x Hx.
  - by apply elem_of_nil in Hx.
  - rewrite linksFrom_cons in Hx. apply elem_of_cons in Hx as [-> | Hx].
    + split; [simpl; lia | done].
    + apply IH in Hx as (Hle & Hsel & Hth). split; [lia | done].
Qed.

Lemma links_selected th hrefs a :
  filter (λ n, themeAssetSelector n = true) (linksFrom a th hrefs)
  = linksFrom a th hrefs.
Proof.
  revert a. induction hrefs as [|href hrefs IH]; intros a; [done|].
  rewrite linksFrom_cons, filter_cons_True by done. by rewrite IH.
Qed.

(** Removing the links one by one gives back the head they were added to. *)
Lemma remove_links th hrefs : ∀ a rs h b m,
  (∀ x, x ∈ forestNodes h ++ forestNodes b → nid x < a) →
  fold_left (λ doc el, remove el doc) (linksFrom a th hrefs)
    (mkDocument rs (h ++ linksFrom a th hrefs) b m)
  = mkDocument rs h b m.
Proof.
  induction hrefs as [|href hrefs IH]; intros a rs h b m Hold.
  - simpl. by rewrite app_nil_r.
  - rewrite linksFrom_cons. cbn [fold_left]. unfold remove at 2.
    cbn [readyState head body nextNid nid cssLink].
    rewrite removeForest_app.
    rewrite (removeForest_absent h), (removeForest_absent b).
    + assert (removeForest a (cssLink a href th :: linksFrom (S a) th hrefs)
              = linksFrom (S a) th hrefs) as ->.
      { unfold removeForest at 1. cbn [flat_map nid cssLink].
        rewrite Nat.eqb_refl. cbn [app].
        fold (removeForest a (linksFrom (S a) th hrefs)).
        apply removeForest_absent. intros x Hx.
        rewrite links_nodes in Hx. apply links_ids in Hx as [Hle _]. lia. }
      apply IH. intros x Hx. specialize (Hold x Hx). lia.
    + intros x Hx Heq. assert (nid x < a) by (apply Hold, elem_of_app; by right). lia.
    + intros x Hx Heq. assert (nid x < a) by (apply Hold, elem_of_app; by left). lia.
Qed.

(** X2: on a document without theme assets and whose identities are in
    order, cleaning right after the stylesheets were injected gives the
    document back (only the next identity has moved on): every injected
    link is found and removed, and nothing else is. *)
Theorem cleanOldAssets_undoes_injectCSSFiles
    (cssFiles : list string) (selectedTheme : string) (d : Document) :
  freshIds d →
  querySelectorAll themeAssetSelector d = [] →
  cleanOldAssets (injectCSSFiles d cssFiles selectedTheme)
  = advance (length cssFiles) d.
Proof.
  intros Hfresh Hnone.
  rewrite injectCSSFiles_links.
  unfold cleanOldAssets, querySelectorAll, docNodes in *.
  cbn [head body].
  rewrite forestNodes_app, links_nodes, !filter_app, links_selected.
  rewrite filter_app in Hnone. apply app_eq_nil in Hnone as [-> ->].
  cbn [app]. rewrite app_nil_r.
  apply remove_links. intros x Hx.
  unfold freshIds, docNodes in Hfresh. rewrite Forall_forall in Hfresh.
  by apply Hfresh.
Qed.

Lemma onlyTheme_nodes th d :
  onlyTheme th d ↔
  ∀ x, x ∈ docNodes d → themeAssetSelector x = true →
       getAttribute "data-theme" x = Some th.
Proof.
  unfold onlyTheme, querySelectorAll. rewrite Forall_forall. split.
  - intros H x Hx Hsel. apply H. by apply list_elem_of_filter.
  - intros H x Hx. apply list_elem_of_filter in Hx as [Hsel Hx]. by apply H.
Qed.

Lemma onlyTheme_append th d (s : Node) :
  childNodes s = [] → getAttribute "data-theme" s = Some th →
  onlyTheme th d →
  onlyTheme th (appendToBody s (createElement "script" d).2).
Proof.
  intros Hleaf Htag Hd. apply onlyTheme_nodes. intros x Hx Hsel.
  unfold docNodes in Hx. cbn [head body appendToBody createElement snd] in Hx.
  rewrite forestNodes_app in Hx.
  apply elem_of_app in Hx as [Hx | Hx];
    [| apply elem_of_app in Hx as [Hx | Hx]];
    try (by apply (proj1 (onlyTheme_nodes th d) Hd);
         [unfold docNodes; apply elem_of_app; auto | done]).
  unfold forestNodes in Hx. simpl in Hx. rewrite app_nil_r in Hx.
  destruct s as [i t a c kids]. simpl in Hleaf. subst kids. simpl in Hx.
  apply list_elem_of_singleton in Hx as ->. done.
Qed.

Lemma onlyTheme_css th d cssFiles :
  onlyTheme th d → onlyTheme th (injectCSSFiles d cssFiles th).
Proof.
  intros Hd. rewrite injectCSSFiles_links. apply onlyTheme_nodes.
  intros x Hx Hsel. unfold docNodes in Hx. cbn [head body] in Hx.
  rewrite forestNodes_app, links_nodes in Hx.
  apply elem_of_app in Hx as [Hx | Hx]; [apply elem_of_app in Hx as [Hx | Hx]|].
  - apply (proj1 (onlyTheme_nodes th d) Hd); [|done].
    unfold docNodes. apply elem_of_app. by left.
  - by apply links_ids in Hx as (_ & _ & Hth).
  - apply (proj1 (onlyTheme_nodes th d) Hd); [|done].
    unfold docNodes. apply elem_of_app. by right.
Qed.

Lemma onlyTheme_start stringify th d jsFiles opts :
  onlyTheme th d →
  onlyTheme th (doc (world (injectStart stringify d jsFiles th opts))).
Proof.
  intros Hd. unfold injectStart.
  destruct (negb (String.eqb (generateOptionsScript stringify th opts) "")); [|done].
  cbn [world doc appendChildBody fst createElement].
  by apply (onlyTheme_append th d).
Qed.

Lemma onlyTheme_settle fetch th src st :
  onlyTheme th (doc (world st)) →
  onlyTheme th (doc (world (settle fetch th src st))).
Proof.
  intros Hd. unfold settle. rewrite InjectorFacts.loadPromise_world.
  destruct (fetchedCode fetch src) as [code|e]; [|done].
  cbn [world doc]. by apply (onlyTheme_append th (doc (world st))).
Qed.

Lemma onlyTheme_run stringify fetch th d jsFiles opts st :
  onlyTheme th d →
  rtc (step fetch th) (injectStart stringify d jsFiles th opts) st →
  onlyTheme th (doc (world st)).
Proof.
  intros Hd.
  apply (rtc_ind_r (λ st, onlyTheme th (doc (world st)))
           (injectStart stringify d jsFiles th opts)).
  - by apply onlyTheme_start.
  - intros st1 st2 _ Hstep H1. destruct Hstep as [st1 src _].
    by apply onlyTheme_settle.
Qed.

(** X3: whatever the frame document held, once it has been cleaned and
    the stylesheets and scripts of the theme injected, every [link] or
    [script] element of it that has a [data-theme] attribute has the
    theme as its value, at every point of every run of the script
    injection: no stylesheet link and no script of another theme is
    left.  (Elements of another kind are not looked at: [cleanOldAssets]
    leaves them in place whatever [data-theme] they carry.) *)
Theorem refresh_leaves_only_current_theme
    (JSON_stringify : gmap string JSVal → string)
    (fetch : string → Settled Response)
    (d : Document) (cssFiles jsFiles : list string) (selectedTheme : string)
    (jsOptions : gmap string JSVal) (st : Injection) :
  rtc (step fetch selectedTheme)
      (injectStart JSON_stringify
         (injectCSSFiles (cleanOldAssets d) cssFiles selectedTheme)
         jsFiles selectedTheme jsOptions) st →
  onlyTheme selectedTheme (doc (world st)).
Proof.
  apply onlyTheme_run, onlyTheme_css.
  unfold onlyTheme. rewrite DomFacts.cleanOldAssets_none_left. constructor.
Qed.



Lemma uniqueFiles_from_elem (l : list string) : ∀ seen x,
  x ∈ fold_left (λ seen x, if bool_decide (x ∈ seen) then seen else seen ++ [x])
                l seen
  ↔ x ∈ seen ∨ x ∈ l.
Proof.
  induction l as [|y l IH]; intros seen x; simpl.
  - rewrite elem_of_nil. tauto.
  - rewrite IH, elem_of_cons. case_bool_decide.
    + split; [tauto|]. intros [?|[->|?]]; auto.
    + rewrite elem_of_app, list_elem_of_singleton. tauto.
Qed.

Lemma uniqueFiles_from_NoDup (l : list string) : ∀ seen,
  NoDup l → (∀ x, x ∈ l → x ∉ seen) →
  fold_left (λ seen x, if bool_decide (x ∈ seen) then seen else seen ++ [x])
            l seen
  = seen ++ l.
Proof.
  induction l as [|y l IH]; intros seen Hnd Hdis; simpl.
  - by rewrite app_nil_r.
  - apply NoDup_cons in Hnd as [Hy Hnd].
    rewrite bool_decide_eq_false_2 by (apply Hdis, elem_of_cons; by left).
    rewrite IH, <- app_assoc; [done | done |].
    intros x Hx Hin. apply elem_of_app in Hin as [Hin | Hin].
    + apply (Hdis x); [apply elem_of_cons; by right | done].
    + apply list_elem_of_singleton in Hin as ->. done.
Qed.

(** X5: the URLs [injectJSFilesAsync] sets out to fetch are those of the
    list, each one once, and the list itself when it has no repetition. *)
Theorem injectJS_fetches_each_url_once
    (JSON_stringify : gmap string JSVal → string)
    (d : Document) (jsFiles : list string) (selectedTheme : string)
    (jsOptions : gmap string JSVal) :
  NoDup (pending (injectStart JSON_stringify d jsFiles selectedTheme jsOptions)) ∧
  (∀ src, src ∈ pending (injectStart JSON_stringify d jsFiles selectedTheme jsOptions)
          ↔ src ∈ jsFiles) ∧
  (NoDup jsFiles →
   pending (injectStart JSON_stringify d jsFiles selectedTheme jsOptions) = jsFiles).
Proof.
  assert (pending (injectStart JSON_stringify d jsFiles selectedTheme jsOptions)
          = uniqueFiles jsFiles) as -> by done.
  split; [apply InjectorFacts.uniqueFiles_NoDup|]. split.
  - intros src. unfold uniqueFiles. rewrite uniqueFiles_from_elem, elem_of_nil. tauto.
  - intros Hnd. unfold uniqueFiles. rewrite uniqueFiles_from_NoDup; [done | done |].
    intros x _ Hx. by apply elem_of_nil in Hx.
Qed.

End InjectedFacts.

(** ** The options handed to the scripts *)

Module CollectedFacts.
Import Collector Collected.

Section Sources.
Variable inputs : gmap string Input.
Variable window : gmap string JSVal.

Lemma collectExtra_source a entry k v :
  jsOptions (collectExtra inputs window a entry) !! k = Some v →
  jsOptions a !! k = Some v ∨
  (entry.1 = k ∧ optionSource inputs window k v entry.2).
Proof.
  destruct entry as [k' o]. unfold collectExtra. simpl.
  case_bool_decide as Hign; simpl.
  - destruct (decide (k' = k)) as [-> | Hne].
    + rewrite lookup_insert_eq. intros [= <-]. right. split; [done|]. by left.
    + rewrite lookup_insert_ne by done. auto.
  - destruct (getById inputs k') as [i|] eqn:Hi; [|simpl; auto].
    destruct (extraActive (Some i)) eqn:Hact; [|auto].
    change (truthy (value <$> Some i)) with (negb (String.eqb (value i) "")).
    change (default "" (value <$> Some i)) with (value i).
    assert (∀ a', jsOptions a' = jsOptions a →
              jsOptions a' !! k = Some v → jsOptions a !! k = Some v ∨
              (k' = k ∧ optionSource inputs window k v o)) as Hsame
      by (intros a' ->; auto).
    destruct (String.eqb_spec (value i) "") as [Hempty | Hval]; cbn [negb].
    + apply Hsame. by destruct (truthy (eo_css o)), (truthy (eo_js o)).
    + destruct (decide (k' = k)) as [-> | Hne].
      * unfold setOption. cbn [jsOptions].
        rewrite lookup_insert_eq. intros [= <-]. right. split; [done|].
        right. split; [done|]. exists i. by rewrite Hi.
      * unfold setOption. cbn [jsOptions]. rewrite lookup_insert_ne by done.
        apply Hsame. by destruct (truthy (eo_css o)), (truthy (eo_js o)).
Qed.

Lemma collectExtras_source opts k v : ∀ a,
  jsOptions (fold_left (collectExtra inputs window) opts a) !! k = Some v →
  jsOptions a !! k = Some v ∨
  ∃ o, (k, o) ∈ opts ∧ optionSource inputs window k v o.
Proof.
  induction opts as [|entry opts IH]; intros a Hk; simpl in Hk; [auto|].
  apply IH in Hk as [Hk | (o & Ho & Hsrc)].
  - apply collectExtra_source in Hk as [Hk | [Heq Hsrc]]; [auto|].
    right. exists entry.2. split; [|done].
    destruct entry as [k' o]. simpl in *. subst k'. apply elem_of_cons. by left.
  - right. exists o. split; [|done]. apply elem_of_cons. by right.
Qed.

Lemma collectElement_source th a entry k v :
  jsOptions (collectElement inputs window th a entry) !! k = Some v →
  jsOptions a !! k = Some v ∨
  (contributes inputs entry.2 = true ∧
   ∃ opts o, extra_options entry.2 = Some opts ∧ (k, o) ∈ opts ∧
             optionSource inputs window k v o).
Proof.
  destruct entry as [name e]. unfold collectElement. simpl.
  destruct (isActive (getById inputs (setting e))) eqn:Hact; simpl; [|auto].
  destruct (truthy (file e)) eqn:Hfile; simpl; [|auto].
  destruct (extra_options e) as [opts|] eqn:Hopts.
  - intros Hk. apply collectExtras_source in Hk as [Hk | (o & Ho & Hsrc)].
    + left. revert Hk. CollectorFacts.by_asset_type e; done.
    + right. split; [unfold contributes; by rewrite Hact, Hfile|].
      by exists opts, o.
  - intros Hk. left. revert Hk. CollectorFacts.by_asset_type e; done.
Qed.

Lemma collectElements_source th els k v : ∀ a,
  jsOptions (fold_left (collectElement inputs window th) els a) !! k = Some v →
  jsOptions a !! k = Some v ∨
  ∃ entry opts o, entry ∈ els ∧ contributes inputs entry.2 = true ∧
    extra_options entry.2 = Some opts ∧ (k, o) ∈ opts ∧
    optionSource inputs window k v o.
Proof.
  induction els as [|entry els IH]; intros a Hk; simpl in Hk; [auto|].
  apply IH in Hk as [Hk | (entry' & opts & o & Hin & H)].
  - apply collectElement_source in Hk as [Hk | (Hc & opts & o & H)]; [auto|].
    right. exists entry, opts, o. split; [apply elem_of_cons; by left | done].
  - right. exists entry', opts, o. split; [apply elem_of_cons; by right | done].
Qed.
End Sources.

(** X6: whatever [collectThemeAssets] puts in [jsOptions] under a key
    comes from an extra option declared under that key by an element that
    declares a file and whose primary setting is active: the value is the
    global of that name for an option of type ignore, and otherwise the
    non-empty value of the input of that name, which is then active.  In
    particular a theme without extra options yields no option at all. *)
Theorem collect_options_come_from_extra_options
    (inputs : gmap string Input) (window : gmap string JSVal)
    (themeData : ThemeData) (selectedTheme : string) :
  (∀ k v,
     jsOptions (collectThemeAssets inputs window themeData selectedTheme) !! k
     = Some v →
     ∃ entry opts o,
       entry ∈ default [] (elements themeData) ∧
       contributes inputs entry.2 = true ∧
       extra_options entry.2 = Some opts ∧ (k, o) ∈ opts ∧
       optionSource inputs window k v o) ∧
  ((∀ entry, entry ∈ default [] (elements themeData) →
             extra_options entry.2 = None) →
   jsOptions (collectThemeAssets inputs window themeData selectedTheme) = ∅).
Proof.
  assert (∀ k v,
     jsOptions (collectThemeAssets inputs window themeData selectedTheme) !! k
     = Some v →
     ∃ entry opts o,
       entry ∈ default [] (elements themeData) ∧
       contributes inputs entry.2 = true ∧
       extra_options entry.2 = Some opts ∧ (k, o) ∈ opts ∧
       optionSource inputs window k v o) as Hsrc.
  { intros k v Hk. unfold collectThemeAssets in Hk.
    apply collectElements_source in Hk as [Hk | Hk]; [|done].
    simpl in Hk. by rewrite lookup_empty in Hk. }
  split; [exact Hsrc|].
  intros Hnone. apply map_eq. intros k. rewrite lookup_empty.
  destruct (jsOptions (collectThemeAssets inputs window themeData selectedTheme) !! k)
    as [v|] eqn:Hk; [|done].
  destruct (Hsrc k v Hk) as (entry & opts & o & Hin & _ & Hopts & _).
  rewrite (Hnone entry Hin) in Hopts. done.
Qed.

End CollectedFacts.

(** ** Positioning again, and switching devices *)

Module LayoutFacts.
Import Dom Collector Injector Preview Shown.

(** Either [positionIframe] leaves the page as it is, or the page passes
    its guards. *)
Lemma positionIframe_cases (p : Page) :
  positionIframe p = p ∨
  ∃ cd s i st o c ov dev done queued chr scr b1 b2 inp win warn config rect,
    p = mkPage (Some (mkContainer cd (Some (mkIframe s i st o c)) (Some ov)))
          dev true done queued chr scr b1 b2 inp win warn ∧
    deviceConfig dev = Some config ∧ scr !! screen config = Some rect.
Proof.
  destruct p as [oc dev init done queued chr scr b1 b2 inp win warn].
  destruct oc as [[cd [[s i st o c]|] [ov|]]|]; try (by left).
  destruct init; [|by left].
  destruct (deviceConfig dev) as [config|] eqn:Hcfg.
  - destruct (scr !! screen config) as [rect|] eqn:Hrect.
    + right. by exists cd, s, i, st, o, c, ov, dev, done, queued, chr, scr,
        b1, b2, inp, win, warn, config, rect.
    + left. unfold positionIframe. simpl. by rewrite Hcfg, Hrect.
  - left. unfold positionIframe. simpl. by rewrite Hcfg.
Qed.

Lemma setBox_twice t w h st : setBox t w h (setBox t w h st) = setBox t w h st.
Proof. unfold setBox. simpl. by destruct (validLength h). Qed.

(** X7: [positionIframe] is idempotent: called again on the page it has
    just laid out (as the resize, scroll and mutation observers do), it
    changes nothing; and it never touches the current device, the
    device containers or the buttons. *)
Theorem positionIframe_idempotent (p : Page) :
  positionIframe (positionIframe p) = positionIframe p ∧
  currentDevice (positionIframe p) = currentDevice p ∧
  chrome (positionIframe p) = chrome p ∧
  previewButton (positionIframe p) = previewButton p ∧
  createButton (positionIframe p) = createButton p.
Proof.
  destruct (positionIframe_cases p) as [Hsame | Hpass].
  - by rewrite !Hsame.
  - destruct Hpass as (cd & s & i & st & o & c & ov & dev & done & queued & chr
                       & scr & b1 & b2 & inp & win & warn & config & rect
                       & -> & Hcfg & Hrect).
    rewrite (PreviewFacts.positionIframe_page chr scr b1 b2 inp win
               cd s i st o c ov dev done queued warn config rect Hcfg Hrect).
    split; [|done].
    rewrite (PreviewFacts.positionIframe_page chr scr b1 b2 inp win
               _ s i _ o c _ dev done queued warn config rect Hcfg Hrect).
    by rewrite !setBox_twice.
Qed.

Lemma deviceConfig_known k target :
  deviceConfig k = Some target →
  (k = "ordi" ∧ target = mkDeviceConfig 1300 ".monitor-preview" ".screenOrdi .content") ∨
  (k = "tel" ∧ target = mkDeviceConfig 500 ".iphone" ".iphone .screenMobile") ∨
  (k = "tablet" ∧ target = mkDeviceConfig 800 ".ipad" ".ipad .screenMobile").
Proof.
  unfold deviceConfig, DEVICE_CONFIG. cbn [find fst snd].
  destruct (String.eqb_spec "ordi" k) as [<-|_]; [intros [= <-]; auto|].
  destruct (String.eqb_spec "tel" k) as [<-|_]; [intros [= <-]; auto|].
  destruct (String.eqb_spec "tablet" k) as [<-|_]; [intros [= <-]; auto|].
  done.
Qed.

Lemma switchToDevice_state k target p :
  deviceConfig k = Some target →
  currentDevice (switchToDevice k p) = k ∧
  chrome (switchToDevice k p)
  = alter (λ _, "block") (container target)
      (fold_left (λ c kv, alter (λ _, "none") (container kv.2) c)
                 DEVICE_CONFIG (chrome p)).
Proof.
  intros Hcfg. unfold switchToDevice. rewrite Hcfg.
  destruct p as [oc dev init done queued chr scr b1 b2 inp win warn].
  by destruct oc as [[cd [fr|] [ov|]]|].
Qed.

(** X8: after [switchToDevice] to a known device, the device container
    of that device is displayed and the two others are hidden (those
    that exist), whatever they showed before; nothing else among the
    elements looked up by selector is touched, and the device becomes the
    current one. *)
Theorem switchToDevice_shows_only_target
    (k : string) (target : DeviceConfig) (p : Page) :
  deviceConfig k = Some target →
  currentDevice (switchToDevice k p) = k ∧
  (∀ sel, sel ∈ deviceContainers →
          chrome (switchToDevice k p) !! sel
          = (λ _, displayFor target sel) <$> chrome p !! sel) ∧
  (∀ sel, sel ∉ deviceContainers →
          chrome (switchToDevice k p) !! sel = chrome p !! sel).
Proof.
  intros Hcfg. destruct (switchToDevice_state k target p Hcfg) as [Hdev Hchr].
  split; [done|]. rewrite Hchr. clear Hchr Hdev.
  unfold deviceContainers, DEVICE_CONFIG, displayFor.
  cbn [fold_left fmap list_fmap snd container].
  split; intros sel Hsel.
  - rewrite !lookup_alter.
    apply deviceConfig_known in Hcfg as [[_ ->]|[[_ ->]|[_ ->]]]; cbn [container];
      repeat (apply elem_of_cons in Hsel as [-> | Hsel]);
      try (by apply elem_of_nil in Hsel);
      repeat case_decide; repeat case_bool_decide; try done;
      by destruct (chrome p !! _).
  - assert (sel ≠ ".monitor-preview" ∧ sel ≠ ".iphone" ∧ sel ≠ ".ipad") as (H1 & H2 & H3).
    { repeat split; intros ->; apply Hsel; repeat constructor. }
    apply deviceConfig_known in Hcfg as [[_ ->]|[[_ ->]|[_ ->]]]; cbn [container];
      rewrite !lookup_alter_ne by done; done.
Qed.

End LayoutFacts.

(** ** A refresh that goes through *)

Module RefreshFacts.
Import Dom Collector Injector Preview.

Section OnPage.
Variable chr : gmap string string.
Variable scr : gmap string Rect.
Variable inp : gmap string Input.
Variable win : gmap string JSVal.

Local Abbreviation page cd fr ov dev init done queued b1 b2 warn :=
  (mkPage (Some (mkContainer cd (Some fr) ov)) dev init done queued
          chr scr b1 b2 inp win warn).

Lemma themePreview_page cd s st o c ov dev init done queued b1 b2 warn :
  themePreview (page cd (mkIframe s true st o c) ov dev init done queued b1 b2 warn)
  = Some (mkIframe s true st o c).
Proof. done. Qed.

Lemma iframe_page cd fr ov dev init done queued b1 b2 warn :
  iframe (page cd fr ov dev init done queued b1 b2 warn) = Some fr.
Proof. done. Qed.

Lemma setFrame_page fr' cd fr ov dev init done queued b1 b2 warn :
  setFrame fr' (page cd fr ov dev init done queued b1 b2 warn)
  = page cd fr' ov dev init done queued b1 b2 warn.
Proof. done. Qed.

Lemma toggleButtons_page v cd fr ov dev init done queued b1 b2 warn :
  toggleButtons v (page cd fr ov dev init done queued b1 b2 warn)
  = page cd fr ov dev init done queued (toggleButton v b1) (toggleButton v b2) warn.
Proof. done. Qed.

Lemma iframeLoadEvent_reload loaded cd s i st c ov dev init done queued b1 b2 warn :
  iframeLoadEvent loaded
    (page cd (mkIframe s i st (Some ReloadResolve) c) ov dev init done queued b1 b2 warn)
  = createdLoadListener
      (page cd (mkIframe s i st (Some ReloadResolve) loaded) ov dev init done
            queued b1 b2 warn).
Proof. done. Qed.
End OnPage.

Lemma toggleButton_twice v w b : toggleButton v (toggleButton w b) = toggleButton v b.
Proof. by destruct b. Qed.

(** X9: for a call of [updatePreview] taken alone (no other handler
    assigns [iframe.onload] or reloads the frame while it is in flight):
    when the preview frame is in the page, the theme is known, the
    reloaded document can be read and every script fetch completes, in
    whatever order, the promise of the call is fulfilled, the overlay
    ends hidden and the preview and create buttons end enabled. *)
Theorem updatePreview_completes_and_restores
    (JSON_stringify : gmap string JSVal → string)
    (fetch : string → Settled Response)
    (d : Document) (order : list string)
    (rawThemes : gmap string ThemeData) (themeName : string)
    (themeData : ThemeData) (p : Page) (fr : Iframe) :
  themePreview p = Some fr →
  rawThemes !! themeName = Some themeData →
  order ≡ₚ uniqueFiles
             (jsFiles (collectThemeAssets (inputs p) (window p) themeData themeName)) →
  (updatePreview JSON_stringify fetch (Accessible d) order rawThemes themeName p).2
  = Some (Fulfilled tt) ∧
  overlayDisplay
    (updatePreview JSON_stringify fetch (Accessible d) order rawThemes themeName p).1
  = Some "none" ∧
  buttonsDisabled
    (updatePreview JSON_stringify fetch (Accessible d) order rawThemes themeName p).1
  = ((λ _, false) <$> previewButton p, (λ _, false) <$> createButton p).
Proof.
  intros Hfr Hth Hperm.
  destruct p as [oc dev init done queued chr scr b1 b2 inp win warn].
  unfold themePreview, iframe in Hfr.
  destruct oc as [[cd [fr0|] ov]|]; simpl in Hfr; try done.
  destruct fr0 as [s i st o c]. simpl in Hfr. destruct i; [|done].
  clear Hfr. cbn [inputs window] in Hperm.
  unfold updatePreview.
  rewrite PreviewFacts.showLoadingOverlay_page, toggleButtons_page, themePreview_page, Hth.
  cbn [src inDocument style content].
  rewrite setFrame_page, iframeLoadEvent_reload, PreviewFacts.createdLoadListener_page.
  rewrite !iframe_page.
  cbn [fmap option_fmap option_map content afterDisable inputs window
       src inDocument style onload].
  match goal with |- context [injectJSFilesAsync ?j ?f ?o ?d2 ?js ?t ?opts] =>
    destruct (InjectorFacts.injectJS_finishes_in_any_order j f d2 js t opts o Hperm)
      as (_ & Hall & _);
    unfold injectJSFilesAsync;
    set (final := settleInOrder f t o (injectStart j d2 js t opts)) in *
  end.
  cbv zeta. rewrite Hall. cbn [fst snd].
  rewrite setFrame_page, PreviewFacts.hideLoadingOverlay_page, toggleButtons_page.
  split; [done|]. split; [done|].
  unfold buttonsDisabled. cbn [previewButton createButton].
  rewrite !toggleButton_twice. by destruct b1, b2.
Qed.

End RefreshFacts.

(** ** Start of the preview *)

Module StartupFacts.
Import Dom Preview Startup.

Lemma createIframe_fresh p :
  iframe p = None →
  ∃ cd ov,
    createIframe p
    = mkPage (Some (mkContainer cd
                      (Some (mkIframe opacPreview true noStyle None
                               (Accessible readyDocument))) ov))
        (currentDevice p) (isInitialized p) (initialPreviewDone p)
        (switchQueued p) (chrome p) (screens p) (previewButton p)
        (createButton p) (inputs p) (window p) (warnings p).
Proof.
  destruct p as [oc dev init done queued chr scr b1 b2 inp win warn].
  unfold iframe. destruct oc as [[cd [fr|] ov]|]; simpl; [done| |]; intros _.
  - by exists cd, ov.
  - by exists None, None.
Qed.

Lemma removeExisting_without_frame p : iframe p = None → removeExisting p = p.
Proof. unfold removeExisting, themePreview. by intros ->. Qed.

Lemma load_after_switch
    chr scr b1 b2 inp win cd s i st c ov dev init done queued warn config rect loaded :
  deviceConfig dev = Some config →
  scr !! screen config = Some rect →
  iframeLoadEvent loaded
    (mkPage (Some (mkContainer cd (Some (mkIframe s i st (Some SwitchOnload) c)) ov))
            dev init done queued chr scr b1 b2 inp win warn)
  = mkPage (Some (mkContainer (Some "block")
                    (Some (mkIframe s i (boxFor config rect st) (Some SwitchOnload)
                             (afterDisable (afterDisable loaded))))
                    (Some (hiddenStyle
                             (boxFor config rect (hiddenStyle (shownStyle ov)))))))
           dev true true (if done then queued else true) chr scr b1 b2 inp win
           (warnedBy (afterDisable loaded) (warnedBy loaded warn)).
Proof.
  intros Hcfg Hrect. unfold iframeLoadEvent.
  rewrite RefreshFacts.iframe_page.
  cbn [src inDocument style onload].
  rewrite RefreshFacts.setFrame_page, PreviewFacts.createdLoadListener_page.
  by erewrite PreviewFacts.switchOnload_page by eassumption.
Qed.

(** X10: on a page that holds no preview frame yet,
    [initDevicePreviewSwitcher] followed by the first load of the frame
    queues one more device switch; once that switch has run and the
    frame has loaded again, the frame is on the preview URL with the
    transform and the width of the current device's screen region, and
    with the height of that layout when the quotient is a length (a
    region that has collapsed leaves the frame without height); the
    overlay is hidden, the container is shown, no switch is queued any
    more, and the loaded document has received the script that disables
    interactions twice. *)
Theorem init_then_loads
    (p : Page) (config : DeviceConfig) (rect : Rect) (d1 d2 : Document) :
  iframe p = None →
  deviceConfig (currentDevice p) = Some config →
  screens p !! screen config = Some rect →
  initialPreviewDone p = false →
  switchQueued (iframeLoadEvent (Accessible d1) (initDevicePreviewSwitcher p))
  = true ∧
  let p2 := iframeLoadEvent (Accessible d2)
              (runQueuedSwitch
                 (iframeLoadEvent (Accessible d1) (initDevicePreviewSwitcher p))) in
  iframe p2
  = Some (mkIframe opacPreview true (boxFor config rect noStyle)
            (Some SwitchOnload)
            (afterDisable (afterDisable (Accessible d2)))) ∧
  transform (boxFor config rect noStyle)
  = Some (TranslateScale (r_left rect) (r_top rect)
            (r_width rect / baseWidth config)%float) ∧
  width (boxFor config rect noStyle) = Some (baseWidth config) ∧
  height (boxFor config rect noStyle)
  = (if validLength (r_height rect / (r_width rect / baseWidth config))
     then Some (r_height rect / (r_width rect / baseWidth config))%float
     else None) ∧
  overlayDisplay p2 = Some "none" ∧
  (containerDisplay <$> iframeContainer p2) = Some (Some "block") ∧
  isInitialized p2 = true ∧
  switchQueued p2 = false ∧
  currentDevice p2 = currentDevice p.
Proof.
  intros Hfr Hcfg Hrect Hdone.
  unfold initDevicePreviewSwitcher.
  rewrite (removeExisting_without_frame p Hfr).
  destruct (createIframe_fresh p Hfr) as (cd & ov & ->).
  cbn [currentDevice].
  rewrite (PreviewFacts.switchToDevice_page _ _ _ _ _ _ (currentDevice p) config)
    by exact Hcfg.
  rewrite (load_after_switch _ _ _ _ _ _ _ _ _ _ _ _ _ _ _ _ _ config rect)
    by assumption.
  rewrite Hdone. split; [done|]. cbv zeta.
  unfold runQueuedSwitch. cbn [switchQueued currentDevice initialPreviewDone].
  change (setInitialPreview true false
            (mkPage ?c ?dev ?i ?dn ?q ?ch ?sc ?x1 ?x2 ?ip ?w ?wr))
    with (mkPage c dev i true false ch sc x1 x2 ip w wr).
  rewrite (PreviewFacts.switchToDevice_page _ _ _ _ _ _ (currentDevice p) config)
    by exact Hcfg.
  rewrite (load_after_switch _ _ _ _ _ _ _ _ _ _ _ _ _ _ _ _ _ config rect)
    by assumption.
  unfold boxFor. rewrite LayoutFacts.setBox_twice.
  repeat split.
Qed.

(** X11: when the preview frame is already in the page,
    [initDevicePreviewSwitcher] removes it and creates no other one: the
    module keeps the removed frame, and the page holds no preview frame
    afterwards. *)
Theorem init_again_loses_the_frame (p : Page) (fr : Iframe) :
  themePreview p = Some fr →
  themePreview (initDevicePreviewSwitcher p) = None ∧
  (inDocument <$> iframe (initDevicePreviewSwitcher p)) = Some false ∧
  (content <$> iframe (initDevicePreviewSwitcher p)) = Some NoDocument.
Proof.
  intros Hfr.
  destruct p as [oc dev init done queued chr scr b1 b2 inp win warn].
  unfold initDevicePreviewSwitcher, removeExisting. rewrite Hfr.
  unfold themePreview, iframe in Hfr.
  destruct oc as [[cd [fr0|] ov]|]; simpl in Hfr; try done.
  destruct (inDocument fr0); [|done]. injection Hfr as ->.
  destruct fr as [s i st o c].
  rewrite RefreshFacts.setFrame_page.
  cbn [src style onload].
  change (createIframe ?q) with q.
  cbn [currentDevice].
  destruct (deviceConfig dev) as [target|] eqn:Hcfg.
  - by rewrite (PreviewFacts.switchToDevice_page _ _ _ _ _ _ dev target).
  - unfold switchToDevice. by rewrite Hcfg.
Qed.

End StartupFacts.

(** ** The device radios *)

Module RadiosFacts.
Import Preview Shown Radios.

(** X12: the three radios of the switcher all name a device that has a
    profile: checking the radio at position [index] makes
    [deviceMap[index]] the current device and shows its container only;
    a radio past the third, or a radio that is unchecked, changes
    nothing. *)
Theorem radioChange_switches (index : nat) (p : Page) :
  (∀ deviceKey, deviceMap !! index = Some deviceKey →
     ∃ target,
       deviceConfig deviceKey = Some target ∧
       currentDevice (radioChange index true p) = deviceKey ∧
       ∀ sel, sel ∈ deviceContainers →
              chrome (radioChange index true p) !! sel
              = (λ _, displayFor target sel) <$> chrome p !! sel) ∧
  (deviceMap !! index = None → radioChange index true p = p) ∧
  radioChange index false p = p.
Proof.
  split; [|split; [|done]].
  - intros deviceKey Hkey. unfold radioChange. rewrite Hkey.
    assert (∃ target, deviceConfig deviceKey = Some target) as [target Hcfg].
    { destruct index as [|[|[|index]]]; simplify_eq/=; by eexists. }
    exists target. split; [done|].
    destruct (LayoutFacts.switchToDevice_state deviceKey target p Hcfg)
      as [Hdev Hchr].
    split; [done|]. intros sel Hsel. rewrite Hchr.
    unfold deviceContainers, DEVICE_CONFIG, displayFor in *.
    cbn [fold_left fmap list_fmap snd container] in *.
    rewrite !lookup_alter.
    apply LayoutFacts.deviceConfig_known in Hcfg as [[_ ->]|[[_ ->]|[_ ->]]];
      cbn [container];
      repeat (apply elem_of_cons in Hsel as [-> | Hsel]);
      try (by apply elem_of_nil in Hsel);
      repeat case_decide; repeat case_bool_decide; try done;
      by destruct (chrome p !! _).
  - intros Hnone. unfold radioChange. by rewrite Hnone.
Qed.

End RadiosFacts.

(** ** The configured themes *)

Module ThemesFacts.
Import Collector Themes.


Lemma insertBy_Permutation {A} (cmp : A → A → Z) x l :
  insertBy cmp x l ≡ₚ x :: l.
Proof.
  induction l as [|y l IH]; simpl; [done|].
  destruct (cmp x y <=? 0)%Z; [done|].
  rewrite IH. apply perm_swap.
Qed.

Lemma sortBy_Permutation {A} (cmp : A → A → Z) l : sortBy cmp l ≡ₚ l.
Proof.
  induction l as [|x l IH]; simpl; [done|].
  by rewrite insertBy_Permutation, IH.
Qed.

Lemma compareThemes_mayPrecede a b :
  (compareThemes a b ≤ 0)%Z ↔ mayPrecede a b.
Proof.
  unfold compareThemes, mayPrecede.
  destruct (toBoolean (active a)), (toBoolean (active b)); simpl;
    split; try lia; try (intros [H1 H2]); try (split; intros; done || lia);
    try (specialize (H2 eq_refl); lia); try (by specialize (H1 eq_refl)).
Qed.

Lemma mayPrecede_total a b : mayPrecede a b ∨ mayPrecede b a.
Proof.
  rewrite <- !compareThemes_mayPrecede. unfold compareThemes.
  destruct (toBoolean (active a)), (toBoolean (active b)); simpl; lia.
Qed.

Lemma mayPrecede_trans a b c : mayPrecede a b → mayPrecede b c → mayPrecede a c.
Proof.
  unfold mayPrecede.
  destruct (toBoolean (active a)), (toBoolean (active b)),
    (toBoolean (active c)); intros [H1 H2] [H3 H4]; split; intros;
    try done; try (by specialize (H1 eq_refl)); try (by specialize (H3 eq_refl));
    specialize (H2 eq_refl); specialize (H4 eq_refl); lia.
Qed.

Lemma insertBy_sorted x l :
  StronglySorted mayPrecede l →
  StronglySorted mayPrecede (insertBy compareThemes x l).
Proof.
  induction 1 as [|y l Hl IH Hy]; simpl.
  - repeat constructor.
  - destruct (Z.leb_spec (compareThemes x y) 0) as [Hle|Hgt].
    + apply compareThemes_mayPrecede in Hle.
      constructor; [by constructor|].
      constructor; [done|].
      eapply Forall_impl; [exact Hy|]. intros z Hz.
      by eapply mayPrecede_trans.
    + constructor; [done|].
      rewrite insertBy_Permutation. constructor; [|done].
      destruct (mayPrecede_total x y) as [Hxy|Hyx]; [|done].
      apply compareThemes_mayPrecede in Hxy. lia.
Qed.

Lemma StronglySorted_lookup_lt {A} (R : A → A → Prop) l i j a b :
  StronglySorted R l → i < j → l !! i = Some a → l !! j = Some b → R a b.
Proof.
  intros Hl. revert i j. induction Hl as [|x l Hl IH Hx]; intros i j Hij Hi Hj.
  - done.
  - destruct j as [|j]; [lia|]. simpl in Hj.
    destruct i as [|i]; simpl in Hi.
    + injection Hi as ->. rewrite Forall_forall in Hx.
      apply Hx. by eapply list_elem_of_lookup_2.
    + eapply IH; [|done..]. lia.
Qed.

(** X14: [sortThemes] returns the themes it is given, each as many times
    as it occurs, in an order where no inactive theme comes before an
    active one and, among themes that are both active or both inactive,
    no theme comes before one that starts later. *)
Theorem sortThemes_actives_first_latest_first (themes : list (string * Theme)) :
  sortThemes themes ≡ₚ snd <$> themes ∧
  ∀ i j a b, i < j →
    sortThemes themes !! i = Some a → sortThemes themes !! j = Some b →
    (toBoolean (active b) = true → toBoolean (active a) = true) ∧
    (toBoolean (active a) = toBoolean (active b) →
     (start_date b ≤ start_date a)%Z).
Proof.
  split; [apply sortBy_Permutation|].
  intros i j a b Hij Ha Hb.
  change (mayPrecede a b).
  eapply StronglySorted_lookup_lt; [|done..].
  unfold sortThemes, sortBy.
  induction (snd <$> themes) as [|x l IH]; simpl; [constructor|].
  by apply insertBy_sorted.
Qed.

Lemma refreshThemeSelect_options form themesConf allTheme sel sel' evs :
  refreshThemeSelect form themesConf allTheme (Some sel) = Some (sel', evs) →
  o_value <$> options sel'
  = filter (λ themeKey, Some themeKey ∉ nameOf <$> themesConf) (fst <$> allTheme) ∧
  evs = ["change"; if bool_decide (length (options sel') = 0%nat)
                   then "allConfigured" else "notAllConfigured"] ∧
  (s_value sel ∈ o_value <$> options sel' → s_value sel' = s_value sel).
Proof.
  unfold refreshThemeSelect. intros [= <- <-].
  set (keys := filter (λ themeKey, Some themeKey ∉ nameOf <$> themesConf)
                      (fst <$> allTheme)).
  assert (∀ f : string → string,
            o_value <$> ((λ k, mkSelectOption k (f k)) <$> keys) = keys) as Hval.
  { intros f. rewrite <- list_fmap_compose. apply list_fmap_id. }
  case_bool_decide as Hsel; cbn [options s_value]; rewrite Hval in *.
  - done.
  - done.
Qed.

(** X15: [refreshThemeSelect] offers exactly the available themes that
    no configured theme is named after, keeps the selection when it is
    still offered, and dispatches [change] and then [allConfigured] when
    it offers nothing, [notAllConfigured] otherwise. *)
Theorem refreshThemeSelect_offers_unconfigured
    (form : gmap string string) (themesConf : list Theme)
    (allTheme : list (string * ThemeData)) (sel : Select) :
  ∃ sel' last,
    refreshThemeSelect form themesConf allTheme (Some sel)
    = Some (sel', ["change"; last]) ∧
    (∀ themeKey, themeKey ∈ o_value <$> options sel' ↔
       themeKey ∈ fst <$> allTheme ∧
       ∀ t, t ∈ themesConf → nameOf t ≠ Some themeKey) ∧
    (s_value sel ∈ o_value <$> options sel' → s_value sel' = s_value sel) ∧
    (last = "allConfigured" ↔
       ∀ themeKey, themeKey ∈ fst <$> allTheme →
                   ∃ t, t ∈ themesConf ∧ nameOf t = Some themeKey) ∧
    (last ≠ "allConfigured" → last = "notAllConfigured").
Proof.
  destruct (refreshThemeSelect form themesConf allTheme (Some sel))
    as [[sel' evs]|] eqn:Hrun; [|done].
  destruct (refreshThemeSelect_options _ _ _ _ _ _ Hrun) as (Hopts & -> & Hkeep).
  eexists sel', _. split; [done|].
  assert (∀ themeKey, themeKey ∈ o_value <$> options sel' ↔
            themeKey ∈ fst <$> allTheme ∧
            ∀ t, t ∈ themesConf → nameOf t ≠ Some themeKey) as Hiff.
  { intros themeKey. rewrite Hopts, list_elem_of_filter, list_elem_of_fmap.
    split.
    - intros [Hnot Hin]. split; [done|]. intros t Ht Hname.
      apply Hnot. by exists t.
    - intros [Hin Hnot]. split; [|done]. intros (t & Hname & Ht).
      by eapply Hnot. }
  split; [done|]. split; [done|].
  assert (length (options sel') = length (o_value <$> options sel')) as Hlen
    by by rewrite length_fmap.
  split.
  - case_bool_decide as Hempty; split; try done.
    + intros _ themeKey Hin.
      destruct (decide (Some themeKey ∈ nameOf <$> themesConf)) as [Hyes|Hno].
      * apply list_elem_of_fmap in Hyes as (t & Hname & Ht). by exists t.
      * assert (themeKey ∈ o_value <$> options sel') as Hoffered.
        { apply Hiff. split; [done|]. intros t Ht Hname. apply Hno.
          apply list_elem_of_fmap. by exists t. }
        rewrite Hlen in Hempty. apply nil_length_inv in Hempty.
        rewrite Hempty in Hoffered. by apply elem_of_nil in Hoffered.
    + intros Hall. exfalso. apply Hempty. rewrite Hlen.
      destruct (o_value <$> options sel') as [|k ks]; [done|].
      assert (k ∈ k :: ks) as Hk by left.
      apply Hiff in Hk as [Hin Hnot].
      destruct (Hall k Hin) as (t & Ht & Hname). by destruct (Hnot t Ht).
  - by case_bool_decide.
Qed.

(** X16: when the configured themes are stored under their names and
    both objects have distinct keys, an [allConfigured] event of
    [refreshThemeSelect] implies that [areAllThemesConfigured] holds; and
    when every configured theme is an available one, the two agree. *)
Theorem allConfigured_event_and_count
    (form : gmap string string) (allThemes : list (string * Theme))
    (rawThemes : list (string * ThemeData)) (sel sel' : Select)
    (evs : list string) :
  NoDup (fst <$> allThemes) →
  NoDup (fst <$> rawThemes) →
  (∀ k t, (k, t) ∈ allThemes → nameOf t = Some k) →
  refreshThemeSelect form (snd <$> allThemes) rawThemes (Some sel)
  = Some (sel', evs) →
  (evs = ["change"; "allConfigured"] →
   areAllThemesConfigured allThemes rawThemes = true) ∧
  ((∀ k, k ∈ fst <$> allThemes → k ∈ fst <$> rawThemes) →
   areAllThemesConfigured allThemes rawThemes = true →
   evs = ["change"; "allConfigured"]).
Proof.
  intros Hall Hraw Hnames Hrun.
  destruct (refreshThemeSelect_options _ _ _ _ _ _ Hrun) as (Hopts & -> & _).
  assert (length (options sel') = length (o_value <$> options sel')) as Hlen
    by by rewrite length_fmap.
  assert (nameOf <$> (snd <$> allThemes) = Some <$> (fst <$> allThemes)) as Hn.
  { rewrite <- !list_fmap_compose. apply list_fmap_ext.
    intros i [k t] Hin. simpl. apply Hnames. by eapply list_elem_of_lookup_2. }
  rewrite Hn in Hopts.
  assert (length (options sel') = 0%nat ↔
          ∀ k, k ∈ fst <$> rawThemes → k ∈ fst <$> allThemes) as Hempty.
  { rewrite Hlen, Hopts. split.
    - intros Hnil k Hk. apply nil_length_inv in Hnil.
      destruct (decide (k ∈ fst <$> allThemes)) as [|Hno]; [done|].
      assert (k ∈ filter (λ themeKey, Some themeKey ∉ Some <$> allThemes.*1)
                         rawThemes.*1) as Hin.
      { apply list_elem_of_filter. split; [|done].
        intros (k' & [= <-] & Hk')%list_elem_of_fmap. done. }
      rewrite Hnil in Hin. by apply elem_of_nil in Hin.
    - intros Hsub.
      destruct (filter _ _) as [|k ks] eqn:Hf; [done|].
      assert (k ∈ filter (λ themeKey, Some themeKey ∉ Some <$> allThemes.*1)
                         rawThemes.*1) as Hin by (rewrite Hf; left).
      apply list_elem_of_filter in Hin as [Hnot Hin].
      exfalso. apply Hnot. apply list_elem_of_fmap. exists k. split; [done|].
      by apply Hsub. }
  unfold areAllThemesConfigured. split.
  - intros Hev. apply bool_decide_eq_true.
    case_bool_decide as H0; [|done].
    apply submseteq_length, NoDup_submseteq; [done|]. by apply Hempty.
  - intros Hsub Hcount. apply bool_decide_eq_true in Hcount.
    rewrite bool_decide_eq_true_2; [done|].
    apply Hempty. intros k Hk.
    assert (fst <$> allThemes ≡ₚ fst <$> rawThemes) as Hperm.
    { apply submseteq_length_Permutation; [|done].
      by apply NoDup_submseteq. }
    by rewrite Hperm.
Qed.

End ThemesFacts.

(** ** The payloads sent to the server *)

Module FormFacts.
Import Collector Form.

Section Facts.
Variable inputs : gmap string Input.

(** What the two builders hold under the same key. *)
Local Abbreviation paired s plS plU :=
  (options plS = options plU ∧
   enabled plS = submitEnabled (getById inputs s) ∧
   enabled plU = updateEnabled (getById inputs s)).

Local Abbreviation agree mS mU :=
  (∀ s : string,
     match mS !! s, mU !! s with
     | Some plS, Some plU => paired s plS plU
     | None, None => True
     | _, _ => False
     end).

Lemma elementsPayload_fold_agree els : ∀ mS mU : gmap string ElementPayload,
  agree mS mU →
  agree
    (fold_left (λ (m : gmap string ElementPayload) (entry : string * Element),
                  <[setting entry.2 := elementPayload inputs submitEnabled entry.2]> m)
               els mS)
    (fold_left (λ (m : gmap string ElementPayload) (entry : string * Element),
                  <[setting entry.2 := elementPayload inputs updateEnabled entry.2]> m)
               els mU).
Proof.
  induction els as [|entry els IH]; intros mS mU Hm; simpl; [done|].
  apply IH. intros s.
  destruct (decide (setting entry.2 = s)) as [<-|Hne].
  - by rewrite !lookup_insert_eq.
  - rewrite !lookup_insert_ne by done. apply Hm.
Qed.

Lemma elementsPayload_fold_has (flag : option Input → bool) els :
  ∀ (m : gmap string ElementPayload) entry,
  entry ∈ els ∨ is_Some (m !! setting entry.2) →
  is_Some (fold_left (λ (m : gmap string ElementPayload) (entry : string * Element),
                        <[setting entry.2 := elementPayload inputs flag entry.2]> m)
                     els m !! setting entry.2).
Proof.
  induction els as [|entry' els IH]; intros m entry Hin; simpl.
  - destruct Hin as [Hin|Hin]; [by apply elem_of_nil in Hin|done].
  - apply IH. destruct Hin as [Hin|Hin].
    + apply elem_of_cons in Hin as [->|Hin]; [|by left].
      right. by rewrite lookup_insert_eq.
    + right. destruct (decide (setting entry'.2 = setting entry.2)) as [Heq|Hne].
      * by rewrite Heq, lookup_insert_eq.
      * by rewrite lookup_insert_ne.
Qed.

Lemma elementsPayload_agree themeData :
  agree (elementsPayload inputs submitEnabled themeData)
        (elementsPayload inputs updateEnabled themeData).
Proof.
  unfold elementsPayload. apply elementsPayload_fold_agree.
  intros s. by rewrite !lookup_empty.
Qed.
End Facts.

(** X17: every element of the theme gets an entry in the payload of
    [submitThemeForm] under its setting.  An element saved as enabled is
    one the preview treats as active; for a checkbox the saved flag and
    the preview's test are both its checked state; but an element whose
    primary input is missing from the page is previewed as active and
    saved as disabled. *)
Theorem submit_saves_less_than_preview_shows
    (inputs : gmap string Input) (rawThemes : gmap string ThemeData)
    (selectedTheme : string) (themeData : ThemeData)
    (els : list (string * Element)) (key : string) (element : Element) :
  rawThemes !! selectedTheme = Some themeData →
  elements themeData = Some els →
  (key, element) ∈ els →
  ∃ pl,
    submitThemeForm inputs rawThemes selectedTheme !! setting element = Some pl ∧
    (enabled pl = true → isActive (getById inputs (setting element)) = true) ∧
    (∀ i, getById inputs (setting element) = Some i → itype i = "checkbox" →
          enabled pl = checked i ∧ isActive (Some i) = checked i) ∧
    (getById inputs (setting element) = None →
     enabled pl = false ∧ isActive (getById inputs (setting element)) = true).
Proof.
  intros Hth Hels Hin. unfold submitThemeForm. rewrite Hth.
  pose proof (elementsPayload_agree inputs (Some themeData) (setting element))
    as Hagree.
  assert (is_Some (elementsPayload inputs submitEnabled (Some themeData)
                   !! setting element)) as [pl Hpl].
  { unfold elementsPayload. simpl. rewrite Hels. simpl.
    apply (elementsPayload_fold_has inputs submitEnabled els ∅ (key, element)).
    by left. }
  rewrite Hpl in Hagree.
  destruct (elementsPayload inputs updateEnabled (Some themeData)
            !! setting element) as [plU|]; [|done].
  destruct Hagree as (_ & Hen & _).
  exists pl. split; [done|]. rewrite Hen. unfold submitEnabled, isActive.
  destruct (getById inputs (setting element)) as [i|].
  - split; [by destruct (String.eqb (itype i) "checkbox")|].
    split; [|done]. intros i' [= <-] Htype. by rewrite Htype.
  - repeat split; done.
Qed.

(** X18: [submitThemeForm] and [updateTheme] build payloads with the
    same keys and, under each key, the same options; but for an element
    whose primary input is no checkbox, is not checked and holds a value,
    the creation saves the element as enabled and the update saves it as
    disabled. *)
Theorem update_disables_what_submit_enables
    (inputs : gmap string Input) (rawThemes : gmap string ThemeData)
    (themeName : string) :
  (∀ s, options <$> submitThemeForm inputs rawThemes themeName !! s
        = options <$> updateTheme inputs rawThemes themeName !! s) ∧
  (∀ themeData els key element i,
     rawThemes !! themeName = Some themeData →
     elements themeData = Some els →
     (key, element) ∈ els →
     getById inputs (setting element) = Some i →
     itype i ≠ "checkbox" → checked i = false → value i ≠ "" →
     (enabled <$> submitThemeForm inputs rawThemes themeName !! setting element)
     = Some true ∧
     (enabled <$> updateTheme inputs rawThemes themeName !! setting element)
     = Some false).
Proof.
  unfold submitThemeForm, updateTheme. split.
  - intros s.
    pose proof (elementsPayload_agree inputs (rawThemes !! themeName) s) as H.
    destruct (elementsPayload inputs submitEnabled _ !! s),
      (elementsPayload inputs updateEnabled _ !! s); try done.
    simpl. by destruct H as (-> & _).
  - intros themeData els key element i Hth Hels Hin Hi Htype Hchecked Hvalue.
    rewrite Hth.
    pose proof (elementsPayload_agree inputs (Some themeData) (setting element))
      as Hagree.
    assert (is_Some (elementsPayload inputs submitEnabled (Some themeData)
                     !! setting element)) as [pl Hpl].
    { unfold elementsPayload. simpl. rewrite Hels. simpl.
      apply (elementsPayload_fold_has inputs submitEnabled els ∅ (key, element)).
      by left. }
    rewrite Hpl in Hagree |- *.
    destruct (elementsPayload inputs updateEnabled (Some themeData)
              !! setting element) as [plU|]; [|done].
    destruct Hagree as (_ & HenS & HenU). simpl.
    rewrite HenS, HenU, Hi. unfold submitEnabled, updateEnabled.
    apply String.eqb_neq in Htype, Hvalue. by rewrite Htype, Hvalue, Hchecked.
Qed.

End FormFacts.

(** ** The loading overlay *)

Module OverlayFacts.
Import Preview.

(** X19: on any page [showLoadingOverlay] leaves the overlay displayed
    (flex), creating the container and the overlay when they are
    missing, and does not touch the preview frame; showing twice is
    showing once; [hideLoadingOverlay] after it leaves the overlay hidden
    (none) and closed to pointer events, and on a page without overlay
    [hideLoadingOverlay] does nothing. *)
Theorem showLoadingOverlay_then_hide (p : Page) :
  overlayDisplay (showLoadingOverlay p) = Some "flex" ∧
  iframe (showLoadingOverlay p) = iframe p ∧
  showLoadingOverlay (showLoadingOverlay p) = showLoadingOverlay p ∧
  overlayDisplay (hideLoadingOverlay (showLoadingOverlay p)) = Some "none" ∧
  (overlayElement (hideLoadingOverlay (showLoadingOverlay p)) ≫= pointerEvents)
  = Some "none" ∧
  (overlayElement p = None → hideLoadingOverlay p = p).
Proof.
  destruct p as [oc dev init done queued chr scr b1 b2 inp win warn].
  destruct oc as [[cd fr [[dp op pe tr w h]|]]|]; repeat split; try done.
  all: unfold hideLoadingOverlay; by intros ->.
Qed.

End OverlayFacts.

(** ** The properties on the scenarios *)

Module CasesFacts.
Import Dom Collector Injector Preview Scenarios Injected Shown Startup Themes Cases.

Lemma cleanOldAssets_undoes_injectCSSFiles_witness :
  cleanOldAssets (injectCSSFiles plainDocument ["a.css"; "b.css"] "noel")
  = advance 2 plainDocument.
Proof.
  apply (InjectedFacts.cleanOldAssets_undoes_injectCSSFiles
           ["a.css"; "b.css"] "noel" plainDocument).
  - unfold freshIds. vm_compute. repeat constructor.
  - reflexivity.
Defined.

Lemma refresh_leaves_only_current_theme_witness :
  onlyTheme "paques"
    (doc (world
       (settleInOrder bothFetched "paques" ["b.js"; "a.js"]
          (injectStart noStringify
             (injectCSSFiles (cleanOldAssets staleDocument) ["oeufs.css"] "paques")
             ["a.js"; "b.js"] "paques" ∅)))).
Proof.
  apply (InjectedFacts.refresh_leaves_only_current_theme
           noStringify bothFetched staleDocument ["oeufs.css"] ["a.js"; "b.js"]
           "paques" ∅).
  apply InjectorFacts.settleInOrder_run.
Defined.


Lemma switchToDevice_shows_only_target_witness :
  currentDevice (switchToDevice "tel" desktopPage) = "tel" ∧
  (∀ sel, sel ∈ deviceContainers →
          chrome (switchToDevice "tel" desktopPage) !! sel
          = (λ _, displayFor (mkDeviceConfig 500 ".iphone" ".iphone .screenMobile") sel)
            <$> chrome desktopPage !! sel) ∧
  (∀ sel, sel ∉ deviceContainers →
          chrome (switchToDevice "tel" desktopPage) !! sel
          = chrome desktopPage !! sel).
Proof.
  apply (LayoutFacts.switchToDevice_shows_only_target "tel"
           (mkDeviceConfig 500 ".iphone" ".iphone .screenMobile") desktopPage).
  reflexivity.
Defined.

Lemma updatePreview_completes_and_restores_witness :
  (updatePreview noStringify snowFetched (Accessible plainDocument)
     [assetUrl "js" "winter" "snow.js"] winterThemes "winter" desktopPage).2
  = Some (Fulfilled tt) ∧
  overlayDisplay
    (updatePreview noStringify snowFetched (Accessible plainDocument)
       [assetUrl "js" "winter" "snow.js"] winterThemes "winter" desktopPage).1
  = Some "none" ∧
  buttonsDisabled
    (updatePreview noStringify snowFetched (Accessible plainDocument)
       [assetUrl "js" "winter" "snow.js"] winterThemes "winter" desktopPage).1
  = ((λ _, false) <$> previewButton desktopPage,
     (λ _, false) <$> createButton desktopPage).
Proof.
  apply (RefreshFacts.updatePreview_completes_and_restores
           noStringify snowFetched plainDocument
           [assetUrl "js" "winter" "snow.js"] winterThemes "winter" winterTheme
           desktopPage
           (mkIframe opacPreview true noStyle None (Accessible readyDocument))).
  - reflexivity.
  - reflexivity.
  - vm_compute. reflexivity.
Defined.

Lemma init_then_loads_witness :
  switchQueued (iframeLoadEvent (Accessible plainDocument)
                  (initDevicePreviewSwitcher freshPage)) = true ∧
  let p2 := iframeLoadEvent (Accessible plainDocument)
              (runQueuedSwitch
                 (iframeLoadEvent (Accessible plainDocument)
                    (initDevicePreviewSwitcher freshPage))) in
  iframe p2
  = Some (mkIframe opacPreview true
            (boxFor (mkDeviceConfig 1300 ".monitor-preview" ".screenOrdi .content")
                    (mkRect 100 50 650 400) noStyle)
            (Some SwitchOnload)
            (afterDisable (afterDisable (Accessible plainDocument)))) ∧
  transform (boxFor (mkDeviceConfig 1300 ".monitor-preview" ".screenOrdi .content")
                    (mkRect 100 50 650 400) noStyle)
  = Some (TranslateScale 100 50 0.5) ∧
  width (boxFor (mkDeviceConfig 1300 ".monitor-preview" ".screenOrdi .content")
                (mkRect 100 50 650 400) noStyle)
  = Some 1300%float ∧
  height (boxFor (mkDeviceConfig 1300 ".monitor-preview" ".screenOrdi .content")
                 (mkRect 100 50 650 400) noStyle)
  = Some 800%float ∧
  overlayDisplay p2 = Some "none" ∧
  (containerDisplay <$> iframeContainer p2) = Some (Some "block") ∧
  isInitialized p2 = true ∧
  switchQueued p2 = false ∧
  currentDevice p2 = currentDevice freshPage.
Proof.
  apply (StartupFacts.init_then_loads freshPage
           (mkDeviceConfig 1300 ".monitor-preview" ".screenOrdi .content")
           (mkRect 100 50 650 400) plainDocument plainDocument);
    reflexivity.
Defined.

Lemma init_again_loses_the_frame_witness :
  themePreview (initDevicePreviewSwitcher desktopPage) = None ∧
  (inDocument <$> iframe (initDevicePreviewSwitcher desktopPage)) = Some false ∧
  (content <$> iframe (initDevicePreviewSwitcher desktopPage)) = Some NoDocument.
Proof.
  apply (StartupFacts.init_again_loses_the_frame desktopPage
           (mkIframe opacPreview true noStyle None (Accessible readyDocument))).
  reflexivity.
Defined.


Lemma allConfigured_event_and_count_witness :
  areAllThemesConfigured allThemes rawThemes = true.
Proof.
  apply (ThemesFacts.allConfigured_event_and_count ∅ allThemes rawThemes
           (mkSelect "noel" [mkSelectOption "noel" "noel"])
           (mkSelect "" []) ["change"; "allConfigured"]).
  - apply (bool_decide_unpack _). vm_compute. reflexivity.
  - apply (bool_decide_unpack _). vm_compute. reflexivity.
  - intros k t Hin.
    apply elem_of_cons in Hin as [[= -> ->]|Hin]; [reflexivity|].
    apply list_elem_of_singleton in Hin as [= -> ->]. reflexivity.
  - reflexivity.
  - reflexivity.
Defined.

Lemma submit_saves_less_than_preview_shows_witness :
  ∃ pl,
    Form.submitThemeForm ∅ (<["trail" := orphanTheme]> ∅) "trail" !! "no_such_input"
    = Some pl ∧
    Form.enabled pl = false ∧
    isActive (getById ∅ "no_such_input") = true.
Proof.
  destruct (FormFacts.submit_saves_less_than_preview_shows
              ∅ (<["trail" := orphanTheme]> ∅) "trail" orphanTheme
              [("trail", mkElement "no_such_input" (Some "trail.js") None None)]
              "trail" (mkElement "no_such_input" (Some "trail.js") None None))
    as (pl & Hpl & _ & _ & Hmissing).
  - reflexivity.
  - reflexivity.
  - left.
  - exists pl. split; [exact Hpl|]. apply Hmissing. reflexivity.
Defined.

Lemma update_disables_what_submit_enables_witness :
  (Form.enabled <$>
     Form.submitThemeForm rangeInputs (<["winter" := rangeTheme]> ∅) "winter"
     !! "quantite_flocons") = Some true ∧
  (Form.enabled <$>
     Form.updateTheme rangeInputs (<["winter" := rangeTheme]> ∅) "winter"
     !! "quantite_flocons") = Some false.
Proof.
  apply (proj2 (FormFacts.update_disables_what_submit_enables
                  rangeInputs (<["winter" := rangeTheme]> ∅) "winter")
           rangeTheme
           [("snow", mkElement "quantite_flocons" (Some "snow.js") (Some "js") None)]
           "snow" (mkElement "quantite_flocons" (Some "snow.js") (Some "js") None)
           (mkInput "range" false "50")).
  - reflexivity.
  - reflexivity.
  - left.
  - reflexivity.
  - discriminate.
  - reflexivity.
  - discriminate.
Defined.

End CasesFacts.
